(** * FolderToJSON-AI: a shallow embedding of [main.py]

    The program walks a directory tree, asks a local inference service for a
    description of every entry and writes the resulting tree of dicts as JSON.

    Conventions of the model.
    - Python [str] is a Rocq [string], each character a code point below
      256; [bytes] is a [list byte].
    - Python dicts are association lists in insertion order, as [json.dump]
      observes that order.
    - The filesystem, the HTTP service, the working directory (behind
      [os.path.abspath]) and the line typed at the prompt form the read-only
      environment [os_env]; console output, the requests sent and the files
      written form the mutable [world].  Every request is answered or fails.
    - Computations live in a state-and-exception monad [M]; its outcome
      [Diverge] stands for a computation that never ends.
    - The interpreter bounds the depth of recursion.  [scan_folder] takes as
      its first argument the number of nested calls of itself that the stack
      still has room for, each with the frames of the calls it makes (the
      recursion limit less the frames in use): the call that exceeds it
      raises [RecursionError] before it does anything.
      An exception raised deeper down, inside a [try] block of the describer,
      is one of the failures that the environment's results stand for.
    - Paths follow [posixpath].  [print] and [str(e)] never fail. *)

From Stdlib Require Import String Ascii List ZArith NArith Lia Bool DecimalString.
From Stdlib.Strings Require Import Byte.
Import ListNotations.
Local Open Scope string_scope.
Local Open Scope Z_scope.
Set Warnings "-register-all".

(* ------------------------------------------------------------------------- *)
(** ** Python strings *)

Module PyStr.

(** The lower-case form of one character: the capitals of ASCII and of
    Latin-1 move 32 places up. *)
Definition lower_ascii (c : ascii) : ascii :=
  let n := nat_of_ascii c in
  if ((Nat.leb 65 n && Nat.leb n 90)
      || (Nat.leb 192 n && Nat.leb n 222 && negb (Nat.eqb n 215)))%bool
  then ascii_of_nat (n + 32) else c.

(** [str.lower()]. *)
Fixpoint lower (s : string) : string :=
  match s with
  | EmptyString => EmptyString
  | String c s' => String (lower_ascii c) (lower s')
  end.

(** [s.startswith(pre)]. *)
Definition startswith (s pre : string) : bool := String.prefix pre s.

(** [s.endswith(suf)]: some tail of [s] is [suf]. *)
Fixpoint endswith (s suf : string) : bool :=
  (s =? suf)%string ||
  match s with
  | EmptyString => false
  | String _ s' => endswith s' suf
  end.

(** [s.endswith((suf1, suf2, ...))]. *)
Definition endswith_any (s : string) (sufs : list string) : bool :=
  existsb (endswith s) sufs.

(** The characters for which [str.isspace()] holds: tab to carriage return,
    the four separators, the space, next line and the no-break space. *)
Definition is_space (c : ascii) : bool :=
  let n := nat_of_ascii c in
  (Nat.leb 9 n && Nat.leb n 13) || (Nat.leb 28 n && Nat.leb n 32)
  || Nat.eqb n 133 || Nat.eqb n 160.

Fixpoint lstrip (s : string) : string :=
  match s with
  | EmptyString => EmptyString
  | String c s' => if is_space c then lstrip s' else s
  end.

Fixpoint rstrip (s : string) : string :=
  match s with
  | EmptyString => EmptyString
  | String c s' =>
      let r := rstrip s' in
      if ((r =? "")%string && is_space c)%bool then EmptyString else String c r
  end.

(** [s.strip()]. *)
Definition strip (s : string) : string := rstrip (lstrip s).

(** [bool(s)] for a string: non-empty. *)
Definition truthy (s : string) : bool := negb (s =? "")%string.

Fixpoint contains (c : ascii) (s : string) : bool :=
  match s with
  | EmptyString => false
  | String c' s' => Ascii.eqb c' c || contains c s'
  end.

Definition hex_digit (n : nat) : string :=
  match String.get n "0123456789abcdef" with
  | Some c => String c EmptyString
  | None => EmptyString
  end.

Definition backslash : string := String (ascii_of_nat 92) EmptyString.

(** One character inside [repr(s)], between quotes [quote]. *)
Definition repr_char (quote c : ascii) : string :=
  let n := nat_of_ascii c in
  if (Nat.eqb n 92 || Ascii.eqb c quote)%bool then backslash ++ String c EmptyString
  else if Nat.eqb n 9 then backslash ++ "t"
  else if Nat.eqb n 10 then backslash ++ "n"
  else if Nat.eqb n 13 then backslash ++ "r"
  else if (Nat.ltb n 32 || (Nat.leb 127 n && Nat.leb n 160) || Nat.eqb n 173)%bool
  then backslash ++ "x" ++ hex_digit (Nat.div n 16) ++ hex_digit (Nat.modulo n 16)
  else String c EmptyString.

Fixpoint repr_chars (quote : ascii) (s : string) : string :=
  match s with
  | EmptyString => EmptyString
  | String c s' => repr_char quote c ++ repr_chars quote s'
  end.

(** [repr(s)] of a string: single quotes, or double quotes when [s] holds a
    single quote and no double one; backslash escapes for the quote, the
    backslash and what does not print. *)
Definition repr (s : string) : string :=
  let single := ascii_of_nat 39 in
  let double := ascii_of_nat 34 in
  let quote := if (contains single s && negb (contains double s))%bool
               then double else single in
  String quote (repr_chars quote s ++ String quote EmptyString).

(** [str(n)] for an [int]. *)
Definition str_of_int (z : Z) : string := NilZero.string_of_int (Z.to_int z).

End PyStr.

(* ------------------------------------------------------------------------- *)
(** ** [posixpath] *)

Module PosixPath.

(** [p.rfind('/')]: the index of the last separator, [-1] when there is none. *)
Fixpoint rfind_sep (p : string) : Z :=
  match p with
  | EmptyString => -1
  | String c rest =>
      let r := rfind_sep rest in
      if 0 <=? r then r + 1
      else if Ascii.eqb c "/" then 0 else -1
  end.

(** [p[i:]]. *)
Fixpoint drop (i : nat) (p : string) : string :=
  match i, p with
  | O, _ => p
  | S i', String _ rest => drop i' rest
  | S _, EmptyString => EmptyString
  end.

(** [os.path.basename]: [i = p.rfind(sep) + 1; return p[i:]]. *)
Definition basename (p : string) : string :=
  let i := rfind_sep p + 1 in
  drop (Z.to_nat i) p.

(** [os.path.join(a, b)] for one component [b]. *)
Definition join (a b : string) : string :=
  if PyStr.startswith b "/" then b
  else if ((a =? "")%string || PyStr.endswith a "/")%bool then a ++ b
  else a ++ "/" ++ b.

(** A plain name holds no separator, as every name of a listing. *)
Definition plain (name : string) : Prop := rfind_sep name = -1.

End PosixPath.

(* ------------------------------------------------------------------------- *)
(** ** [base64.b64encode] *)

Module Base64.

Definition alphabet : string :=
  "ABCDEFGHIJKLMNOPQRSTUVWXYZabcdefghijklmnopqrstuvwxyz0123456789+/".

Definition digit (i : N) : ascii :=
  match String.get (N.to_nat i) alphabet with
  | Some c => c
  | None => "="%char
  end.

Definition sextet (n : N) (k : N) : ascii :=
  digit (N.land (N.shiftr n (6 * k)) 63).

(** Three bytes give four digits; a tail of one or two bytes is padded. *)
Fixpoint b64encode (bs : list byte) : string :=
  match bs with
  | [] => EmptyString
  | [a] =>
      let n := N.shiftl (Byte.to_N a) 16 in
      String (sextet n 3) (String (sextet n 2) "==")
  | [a; b] =>
      let n := N.lor (N.shiftl (Byte.to_N a) 16) (N.shiftl (Byte.to_N b) 8) in
      String (sextet n 3) (String (sextet n 2) (String (sextet n 1) "="))
  | a :: b :: c :: rest =>
      let n := N.lor (N.lor (N.shiftl (Byte.to_N a) 16) (N.shiftl (Byte.to_N b) 8))
                     (Byte.to_N c) in
      String (sextet n 3) (String (sextet n 2) (String (sextet n 1)
        (String (sextet n 0) (b64encode rest))))
  end%N.

End Base64.

(* ------------------------------------------------------------------------- *)
(** ** Python values, exceptions *)

(** The values that JSON decoding produces and that the program builds.
    A float is carried by its [repr]. *)
Inductive pyval : Type :=
| PNone
| PBool (b : bool)
| PInt (z : Z)
| PFloat (repr : string)
| PStr (s : string)
| PList (items : list pyval)
| PDict (fields : list (string * pyval)).

(** A raised exception: its class and [str(e)]. *)
Record exn : Type := mkExn { exn_class : string; exn_str : string }.

(** The result of an operation that may raise. *)
Inductive result (A : Type) : Type :=
| Ok (a : A)
| Error (e : exn).
Arguments Ok {A} a.
Arguments Error {A} e.

Module PyDict.

Fixpoint lookup (k : string) (d : list (string * pyval)) : option pyval :=
  match d with
  | [] => None
  | (k', v) :: d' => if (k' =? k)%string then Some v else lookup k d'
  end.

(** [d[k] = v] on a dict: replaces in place, or appends a new key. *)
Fixpoint set (k : string) (v : pyval) (d : list (string * pyval)) : list (string * pyval) :=
  match d with
  | [] => [(k, v)]
  | (k', v') :: d' => if (k' =? k)%string then (k', v) :: d' else (k', v') :: set k v d'
  end.

Definition type_name (v : pyval) : string :=
  match v with
  | PNone => "NoneType"
  | PBool _ => "bool"
  | PInt _ => "int"
  | PFloat _ => "float"
  | PStr _ => "str"
  | PList _ => "list"
  | PDict _ => "dict"
  end.

Definition AttributeError (v : pyval) (attr : string) : exn :=
  mkExn "AttributeError" ("'" ++ type_name v ++ "' object has no attribute '" ++ attr ++ "'").

Definition KeyError (k : string) : exn := mkExn "KeyError" (PyStr.repr k).

(** [v.get(k, default)]: only a dict has the method. *)
Definition get (v : pyval) (k : string) (default : pyval) : result pyval :=
  match v with
  | PDict d => Ok (match lookup k d with Some x => x | None => default end)
  | _ => Error (AttributeError v "get")
  end.

(** [v[k]] on a dict. *)
Definition getitem (v : pyval) (k : string) : result pyval :=
  match v with
  | PDict d => match lookup k d with Some x => Ok x | None => Error (KeyError k) end
  | _ => Error (mkExn "TypeError" ("'" ++ type_name v ++ "' object is not subscriptable"))
  end.

(** [l.append(x)], as the new value of the list object. *)
Definition append (l x : pyval) : result pyval :=
  match l with
  | PList items => Ok (PList (items ++ [x]))
  | _ => Error (AttributeError l "append")
  end.

End PyDict.

(* ------------------------------------------------------------------------- *)
(** ** The environment and the world *)

(** What a path names.  Opening a file for reading or listing a directory may
    raise (permissions, I/O errors), so both carry a [result]. *)
Inductive inode : Type :=
| File (contents : result (list byte))
| Dir (entries : result (list string)).

(** One call of [requests.post(url, headers=headers, json=payload)]. *)
Record request : Type := mkRequest {
  req_url : string;
  req_headers : list (string * string);
  req_json : pyval
}.

(** A [requests.Response]: [json] is what [response.json()] does. *)
Record response : Type := mkResponse {
  status_code : Z;
  text : string;
  json : result pyval
}.

(** Everything the program reads but does not change.  [fs] maps a path to
    what it names; it is a function on paths, so a symbolic link into an
    ancestor shows up as an infinite descending chain of directories.
    [post n r] is the service's behaviour on the request [r] when [n]
    requests were made before. *)
Record os_env : Type := mkEnv {
  fs : string -> option inode;
  abspath : string -> string;
  open_w : string -> result unit;
  post : nat -> request -> result response;
  input_line : result string
}.

(** What the program changes: the console, the requests made so far, the
    files written. *)
Record world : Type := mkWorld {
  stdout : list string;
  requests : list request;
  written : list (string * string)
}.

Definition initial_world : world := mkWorld [] [] [].

(* ------------------------------------------------------------------------- *)
(** ** The monad of computations *)

Inductive outcome (A : Type) : Type :=
| Ret (a : A)
| Raise (e : exn)
| Diverge.
Arguments Ret {A} a.
Arguments Raise {A} e.
Arguments Diverge {A}.

Definition M (A : Type) : Type := world -> outcome A * world.

Definition ret {A} (a : A) : M A := fun w => (Ret a, w).

Definition raise {A} (e : exn) : M A := fun w => (Raise e, w).

Definition bind {A B} (m : M A) (f : A -> M B) : M B :=
  fun w =>
    match m w with
    | (Ret a, w') => f a w'
    | (Raise e, w') => (Raise e, w')
    | (Diverge, w') => (Diverge, w')
    end.

(** [try: m  except Exception as e: handler e]. *)
Definition try_except {A} (m : M A) (handler : exn -> M A) : M A :=
  fun w =>
    match m w with
    | (Raise e, w') => handler e w'
    | r => r
    end.

Definition lift {A} (r : result A) : M A :=
  match r with
  | Ok a => ret a
  | Error e => raise e
  end.

Notation "x <- c1 ;; c2" := (bind c1 (fun x => c2))
  (at level 61, c1 at next level, right associativity).
Notation "c1 ;; c2" := (bind c1 (fun _ => c2))
  (at level 61, right associativity).

(** [for x in items: s = body x s]. *)
Fixpoint for_each {A S : Type} (items : list A) (body : A -> S -> M S) (s : S) : M S :=
  match items with
  | [] => ret s
  | x :: rest => s' <- body x s;; for_each rest body s'
  end.

(** [print(line)]. *)
Definition print (line : string) : M unit :=
  fun w => (Ret tt, mkWorld (stdout w ++ [line]) (requests w) (written w)).

(* ------------------------------------------------------------------------- *)
(** ** The program *)

Section Program.

Variable env : os_env.

(** *** The operating system calls *)

(** An [OSError] about a file: its text ends in [repr] of the file's name. *)
Definition OSError (cls : string) (errno : string) (p : string) : exn :=
  mkExn cls (errno ++ ": " ++ PyStr.repr p).

Definition FileNotFoundError := OSError "FileNotFoundError" "[Errno 2] No such file or directory".
Definition NotADirectoryError := OSError "NotADirectoryError" "[Errno 20] Not a directory".
Definition IsADirectoryError := OSError "IsADirectoryError" "[Errno 21] Is a directory".

(** [os.path.exists]. *)
Definition path_exists (p : string) : bool :=
  match fs env p with
  | Some _ => true
  | None => false
  end.

(** [os.path.isdir]. *)
Definition isdir (p : string) : bool :=
  match fs env p with
  | Some (Dir _) => true
  | _ => false
  end.

(** [os.listdir]. *)
Definition listdir (p : string) : result (list string) :=
  match fs env p with
  | Some (Dir entries) => entries
  | Some (File _) => Error (NotADirectoryError p)
  | None => Error (FileNotFoundError p)
  end.

(** [open(p, "rb")] followed by [read()]. *)
Definition read_binary (p : string) : result (list byte) :=
  match fs env p with
  | Some (File contents) => contents
  | Some (Dir _) => Error (IsADirectoryError p)
  | None => Error (FileNotFoundError p)
  end.

(** [requests.post]: the request is made, then the service answers or the
    transport fails. *)
Definition requests_post (url : string) (headers : list (string * string))
    (payload : pyval) : M response :=
  fun w =>
    let r := mkRequest url headers payload in
    let w' := mkWorld (stdout w) (requests w ++ [r]) (written w) in
    match post env (length (requests w)) r with
    | Ok resp => (Ret resp, w')
    | Error e => (Raise e, w')
    end.

(** [with open(p, "w") as f: f.write(content)]. *)
Definition write_text (p content : string) : M unit :=
  lift (open_w env p);;
  fun w => (Ret tt, mkWorld (stdout w) (requests w) (written w ++ [(p, content)])).

(** *** [encode_image_to_base64] *)

Definition encode_image_to_base64 (image_path : string) : M (option string) :=
  try_except
    (img <- lift (read_binary image_path);;
     ret (Some (Base64.b64encode img)))
    (fun e =>
       print ("Error encoding image: " ++ image_path ++ ". Error: " ++ exn_str e);;
       ret None).

(** *** [describe_with_curl] *)

Definition url : string := "http://localhost:11434/api/chat".
Definition headers : list (string * string) := [("Content-Type", "application/json")].

Definition payload_of (model : string) (messages : list pyval) : pyval :=
  PDict [("model", PStr model); ("messages", PList messages)].

Definition image_message (image_data : string) : pyval :=
  PDict [("role", PStr "user");
         ("content", PStr "What is in this image?");
         ("images", PList [PStr image_data])].

(** [f"{text}"] for an optional string. *)
Definition format_opt (text : option string) : string :=
  match text with
  | Some t => t
  | None => "None"
  end.

Definition text_message (text : option string) : pyval :=
  PDict [("role", PStr "user");
         ("content", PStr ("Describe this: " ++ format_opt text))].

(** The [try] block: post the payload and read the answer. *)
Definition send (payload : pyval) : M pyval :=
  try_except
    (response <- requests_post url headers payload;;
     if status_code response =? 200 then
       body <- lift (json response);;
       lift (PyDict.get body "content" (PStr "No description available"))
     else
       ret (PStr ("Error: " ++ PyStr.str_of_int (status_code response)
                    ++ " - " ++ text response)))
    (fun e => ret (PStr ("Error making the request: " ++ exn_str e))).

(** [if x:] for an optional string picks the strings that are neither [None]
    nor empty. *)
Definition if_truthy (x : option string) : option string :=
  match x with
  | Some s => if PyStr.truthy s then Some s else None
  | None => None
  end.

Definition describe_with_curl (model : string) (image_path text : option string) : M pyval :=
  match if_truthy image_path with
  | Some path =>
      image_data <- encode_image_to_base64 path;;
      match if_truthy image_data with
      | Some data => send (payload_of model [image_message data])
      | None => ret (PStr "Error encoding the image for description.")
      end
  | None => send (payload_of model [text_message text])
  end.

(** *** [scan_folder] *)

(** What the interpreter raises when a call does not fit on the stack. *)
Definition RecursionError : exn :=
  mkExn "RecursionError" "maximum recursion depth exceeded".

Definition image_suffixes : list string := ["png"; "jpg"; "jpeg"; "gif"].

(** [item.lower().endswith(("png", "jpg", "jpeg", "gif"))]. *)
Definition has_image_suffix (item : string) : bool :=
  PyStr.endswith_any (PyStr.lower item) image_suffixes.

(** [result["children"].append(child)]: the list under the key is extended
    in place, which the dict holding it observes. *)
Definition append_child (result child : pyval) : M pyval :=
  children <- lift (PyDict.getitem result "children");;
  children' <- lift (PyDict.append children child);;
  match result with
  | PDict d => ret (PDict (PyDict.set "children" children' d))
  | _ => ret result
  end.

Definition folder_node (folder_path : string) (description : pyval) : pyval :=
  PDict [("name", PStr (PosixPath.basename folder_path));
         ("path", PStr (abspath env folder_path));
         ("type", PStr "folder");
         ("description", description);
         ("children", PList [])].

Definition file_node (item item_path : string) (description : pyval) : pyval :=
  PDict [("name", PStr item);
         ("path", PStr (abspath env item_path));
         ("type", PStr "file");
         ("description", description)].

(** The body of the loop over the listing; [recur] is [scan_folder] itself. *)
Definition scan_item (recur : string -> string -> M pyval)
    (folder_path model item : string) (result : pyval) : M pyval :=
  let item_path := PosixPath.join folder_path item in
  if isdir item_path then
    child <- recur item_path model;;
    append_child result child
  else
    description <- describe_with_curl model
                     (if has_image_suffix item then Some item_path else None)
                     (Some item);;
    append_child result (file_node item item_path description).

(** [fuel] is the number of nested calls the stack still has room for. *)
Fixpoint scan_folder (fuel : nat) (folder_path model : string) {struct fuel} : M pyval :=
  match fuel with
  | O => raise RecursionError
  | S fuel' =>
      description <- describe_with_curl model None
                       (Some (PosixPath.basename folder_path));;
      let result := folder_node folder_path description in
      items <- lift (listdir folder_path);;
      for_each items (scan_item (scan_folder fuel') folder_path model) result
  end.

(** *** [main] *)

(** [json.dumps(value, indent=n)], the standard library's encoder. *)
Variable json_dumps : nat -> pyval -> string.

(** [input(prompt)]: the prompt goes to the console, then a line is read. *)
Definition input (prompt : string) : M string :=
  print prompt;;
  lift (input_line env).

(** [fuel] is the room the stack has for the calls of [scan_folder]. *)
Definition main (fuel : nat) : M unit :=
  line <- input "Enter the path to the folder you want to scan: ";;
  let folder_path := PyStr.strip line in
  let model := "llama3.2-vision" in
  if negb (path_exists folder_path) then
    print "The specified folder does not exist."
  else
    print "Scanning folder and generating descriptions...";;
    folder_structure <- scan_folder fuel folder_path model;;
    let output_file := PosixPath.join folder_path "folder_structure.json" in
    write_text output_file (json_dumps 4 folder_structure);;
    print ("Folder structure saved to " ++ output_file).

End Program.

(* ------------------------------------------------------------------------- *)
(** ** Nodes, trees and the shape of the filesystem *)

(** [node.get(k)] on a dict; [None] when the key is absent. *)
Definition field (k : string) (node : pyval) : option pyval :=
  match node with
  | PDict d => PyDict.lookup k d
  | _ => None
  end.

Definition children_of (node : pyval) : list pyval :=
  match field "children" node with
  | Some (PList cs) => cs
  | _ => []
  end.

(** [in_tree root n]: [n] is [root] or sits below it along [children]. *)
Inductive in_tree : pyval -> pyval -> Prop :=
| in_tree_here : forall n, in_tree n n
| in_tree_child : forall root child n,
    In child (children_of root) -> in_tree child n -> in_tree root n.

(** The invariant of the data model at one node. *)
Definition children_iff_folder (n : pyval) : Prop :=
  field "children" n <> None <-> field "type" n = Some (PStr "folder").

(** The two shapes a node takes: a folder with its list of children, or a
    file without the key. *)
Definition node_shape (n : pyval) : Prop :=
  (field "type" n = Some (PStr "folder") /\ exists cs, field "children" n = Some (PList cs)) \/
  (field "type" n = Some (PStr "file") /\ field "children" n = None).

(** [steady w w']: from [w] to [w'] no file was written and requests were
    only added. *)
Definition steady (w w' : world) : Prop :=
  written w' = written w /\ exists rs, requests w' = (requests w ++ rs)%list.

(** A computation that is steady from every world. *)
Definition steady_m {A} (m : M A) : Prop := forall w, steady w (snd (m w)).

(** A computation that terminates from every world: it returns or raises. *)
Definition halts {A} (m : M A) : Prop := forall w, fst (m w) <> Diverge.

(** A computation whose exceptions all satisfy [P]. *)
Definition raises_only {A} (P : exn -> Prop) (m : M A) : Prop :=
  forall w e, fst (m w) = Raise e -> P e.

(** A computation that raises nothing but [RecursionError]. *)
Definition overflow_only {A} (m : M A) : Prop :=
  raises_only (fun e => e = RecursionError) m.

(** An exception that the listing of some directory raises. *)
Definition listing_error (env : os_env) (e : exn) : Prop :=
  exists q, listdir env q = Error e.

Section Shapes.

Variable env : os_env.

(** The dict that [scan_folder] holds for [folder_path] once the children
    [cs] have been appended. *)
Definition folder_with (folder_path : string) (description : pyval) (cs : list pyval) : pyval :=
  PDict [("name", PStr (PosixPath.basename folder_path));
         ("path", PStr (abspath env folder_path));
         ("type", PStr "folder");
         ("description", description);
         ("children", PList cs)].

(** A leaf for the entry [item] of [folder_path]. *)
Definition leaf_for (folder_path item : string) (child : pyval) : Prop :=
  field "name" child = Some (PStr item) /\
  field "path" child = Some (PStr (abspath env (PosixPath.join folder_path item))) /\
  field "type" child = Some (PStr "file") /\
  field "children" child = None.

(** [mirrors p node]: [node] is the fully populated tree of the folder [p]:
    one child per entry of every listing, in the listing's order, a subtree
    for a directory and a leaf for anything else. *)
Inductive mirrors : string -> pyval -> Prop :=
| mirrors_folder : forall p node items cs,
    listdir env p = Ok items ->
    field "name" node = Some (PStr (PosixPath.basename p)) ->
    field "path" node = Some (PStr (abspath env p)) ->
    field "type" node = Some (PStr "folder") ->
    field "children" node = Some (PList cs) ->
    Forall2 (fun item child =>
               (isdir env (PosixPath.join p item) = true ->
                mirrors (PosixPath.join p item) child) /\
               (isdir env (PosixPath.join p item) = false ->
                leaf_for p item child))
            items cs ->
    mirrors p node.

(** The child that stands for the entry [item] of [p]: it carries the
    entry's path, its kind, and its name. *)
Definition entry_node (p item : string) (child : pyval) : Prop :=
  field "path" child = Some (PStr (abspath env (PosixPath.join p item))) /\
  field "type" child =
    Some (PStr (if isdir env (PosixPath.join p item) then "folder" else "file")) /\
  field "name" child =
    Some (PStr (if isdir env (PosixPath.join p item)
                then PosixPath.basename (PosixPath.join p item) else item)).

(** [located p node q n]: in the tree [node] scanned from [p], the node [n]
    stands for the path [q]. *)
Inductive located : string -> pyval -> string -> pyval -> Prop :=
| located_here : forall p node, located p node p node
| located_below : forall p node items cs item child q n,
    listdir env p = Ok items ->
    field "children" node = Some (PList cs) ->
    In (item, child) (combine items cs) ->
    located (PosixPath.join p item) child q n ->
    located p node q n.

(** No infinite descent through directories below [p]: the tree is finite
    and no link leads back into an ancestor. *)
Inductive finite_tree : string -> Prop :=
| finite_tree_intro : forall p,
    (forall items item,
        listdir env p = Ok items -> In item items ->
        isdir env (PosixPath.join p item) = true ->
        finite_tree (PosixPath.join p item)) ->
    finite_tree p.

(** Directory nesting below [p] stays within [n] levels, [p] included. *)
Fixpoint nesting_within (n : nat) (p : string) : Prop :=
  match n with
  | O => False
  | S n' =>
      forall items item,
        listdir env p = Ok items -> In item items ->
        isdir env (PosixPath.join p item) = true ->
        nesting_within n' (PosixPath.join p item)
  end.

(** A finite tree in which, moreover, every directory can be listed. *)
Inductive scannable : string -> Prop :=
| scannable_intro : forall p items,
    listdir env p = Ok items ->
    (forall item, In item items ->
        isdir env (PosixPath.join p item) = true ->
        scannable (PosixPath.join p item)) ->
    scannable p.

(** What the [try] block of [describe_with_curl] returns, as a function of
    what the service did with the request. *)
Definition answer_of (r : result response) : pyval :=
  match r with
  | Error e => PStr ("Error making the request: " ++ exn_str e)
  | Ok resp =>
      if status_code resp =? 200 then
        match json resp with
        | Error e => PStr ("Error making the request: " ++ exn_str e)
        | Ok body =>
            match PyDict.get body "content" (PStr "No description available") with
            | Ok v => v
            | Error e => PStr ("Error making the request: " ++ exn_str e)
            end
        end
      else
        PStr ("Error: " ++ PyStr.str_of_int (status_code resp) ++ " - " ++ text resp)
  end.

(** The request of a text-mode call, and of an image-mode call. *)
Definition text_request (model : string) (text : option string) : request :=
  mkRequest url headers (payload_of model [text_message text]).

Definition image_request (model : string) (data : string) : request :=
  mkRequest url headers (payload_of model [image_message data]).

(** The world after one more request. *)
Definition after_request (w : world) (r : request) : world :=
  mkWorld (stdout w) (requests w ++ [r]) (written w).

(** The world after one more line on the console. *)
Definition after_print (w : world) (line : string) : world :=
  mkWorld (stdout w ++ [line]) (requests w) (written w).

(** A text-mode call in closed form: the value returned and the world left. *)
Definition text_mode (model : string) (text : option string) (w : world) : pyval * world :=
  let r := text_request model text in
  (answer_of (post env (length (requests w)) r), after_request w r).

(** An image-mode call in closed form. *)
Definition image_mode (model path : string) (w : world) : pyval * world :=
  match read_binary env path with
  | Error e =>
      (PStr "Error encoding the image for description.",
       after_print w ("Error encoding image: " ++ path ++ ". Error: " ++ exn_str e))
  | Ok img =>
      match if_truthy (Some (Base64.b64encode img)) with
      | Some data =>
          let r := image_request model data in
          (answer_of (post env (length (requests w)) r), after_request w r)
      | None => (PStr "Error encoding the image for description.", w)
      end
  end.

(** [describe_with_curl] in closed form. *)
Definition described_as (model : string) (image_path text : option string) (w : world)
  : pyval * world :=
  match if_truthy image_path with
  | Some path => image_mode model path w
  | None => text_mode model text w
  end.

(** What one entry of a listing contributes: the child appended for it, and
    the world afterwards. *)
Definition item_result (recur : string -> string -> M pyval)
    (folder_path model item : string) (w : world) (child : pyval) (w' : world) : Prop :=
  let item_path := PosixPath.join folder_path item in
  if isdir env item_path then
    recur item_path model w = (Ret child, w')
  else
    exists description,
      describe_with_curl env model
        (if has_image_suffix item then Some item_path else None) (Some item) w
      = (Ret description, w') /\
      child = file_node env item item_path description.

Inductive items_results (recur : string -> string -> M pyval) (folder_path model : string)
  : list string -> world -> list pyval -> world -> Prop :=
| items_results_nil : forall w, items_results recur folder_path model [] w [] w
| items_results_cons : forall item items w child w1 cs w2,
    item_result recur folder_path model item w child w1 ->
    items_results recur folder_path model items w1 cs w2 ->
    items_results recur folder_path model (item :: items) w (child :: cs) w2.

End Shapes.

(** The prompt of [main], the file it writes, and the world in which its
    scan starts. *)
Definition prompt : string := "Enter the path to the folder you want to scan: ".

Definition output_file (root : string) : string :=
  PosixPath.join root "folder_structure.json".

Definition scan_start (w : world) : world :=
  after_print (after_print w prompt) "Scanning folder and generating descriptions...".

(** The answer as the specification words it: on status 200 the value of the
    top-level [content] field of the parsed body, the fallback when the field
    is absent; on any other status the error line. *)
Definition specified_answer (resp : response) : pyval :=
  if status_code resp =? 200 then
    match json resp with
    | Ok (PDict d) =>
        match PyDict.lookup "content" d with
        | Some v => v
        | None => PStr "No description available"
        end
    | _ => PStr "No description available"
    end
  else
    PStr ("Error: " ++ PyStr.str_of_int (status_code resp) ++ " - " ++ text resp).

(* ------------------------------------------------------------------------- *)
(** ** Measures and invariants of a run *)

(** The number of nodes of a tree: the dict itself and, under its [children]
    key, the nodes of every child. *)
Fixpoint node_count (node : pyval) : nat :=
  match node with
  | PDict fields =>
      S ((fix along (fs : list (string * pyval)) : nat :=
            match fs with
            | [] => O
            | kv :: rest =>
                if (fst kv =? "children")%string then
                  match snd kv with
                  | PList cs =>
                      (fix total (l : list pyval) : nat :=
                         match l with
                         | [] => O
                         | c :: l' => (node_count c + total l')%nat
                         end) cs
                  | _ => O
                  end
                else along rest
            end) fields)
  | _ => O
  end.

(** The nodes of a list of children. *)
Definition nodes_in (cs : list pyval) : nat := list_sum (map node_count cs).

(** A request as the describer makes them for [model]: the fixed endpoint
    and header, the model, and one message of the user with a text. *)
Definition request_for (model : string) (r : request) : Prop :=
  req_url r = "http://localhost:11434/api/chat" /\
  req_headers r = [("Content-Type", "application/json")] /\
  exists message content,
    req_json r = PDict [("model", PStr model); ("messages", PList [message])] /\
    field "role" message = Some (PStr "user") /\
    field "content" message = Some (PStr content).

(** The line that a failed encoding prints. *)
Definition encoding_error_line (line : string) : Prop :=
  PyStr.startswith line "Error encoding image: " = true.

(** [emits P Q c]: from every world, [c] only adds requests, all of them in
    [P], and only adds lines to the console, all of them in [Q]. *)
Definition emits {A} (P : request -> Prop) (Q : string -> Prop) (c : M A) : Prop :=
  forall w, exists rs lines,
    requests (snd (c w)) = (requests w ++ rs)%list /\ Forall P rs /\
    stdout (snd (c w)) = (stdout w ++ lines)%list /\ Forall Q lines.

(** The lines that [main] itself prints. *)
Definition main_line (line : string) : Prop :=
  line = prompt \/
  line = "The specified folder does not exist." \/
  line = "Scanning folder and generating descriptions..." \/
  PyStr.startswith line "Folder structure saved to " = true.

(** An image path for which the describer makes no request: the file cannot
    be read, or holds no byte. *)
Definition silent_image (env : os_env) (image_path : option string) : Prop :=
  exists path,
    if_truthy image_path = Some path /\
    (read_binary env path = Ok [] \/ exists e, read_binary env path = Error e).

(** How the description [d] of the leaf of the entry [item] at path [q] came
    about in a scan from [w] to [w']. *)
Definition leaf_described (env : os_env) (m : string) (w w' : world)
    (item q : string) (d : pyval) : Prop :=
  if has_image_suffix item then
    (d = PStr "Error encoding the image for description." /\
     silent_image env (Some q)) \/
    (exists k img,
       read_binary env q = Ok img /\ img <> [] /\
       (length (requests w) <= k)%nat /\
       nth_error (requests w') k = Some (image_request m (Base64.b64encode img)) /\
       d = answer_of (post env k (image_request m (Base64.b64encode img))))
  else
    exists k,
      (length (requests w) <= k)%nat /\
      nth_error (requests w') k = Some (text_request m (Some item)) /\
      d = answer_of (post env k (text_request m (Some item))).

(* ------------------------------------------------------------------------- *)
(** ** A reference encoder for [json.dumps(value, indent=n)]

    [main] takes the encoder as a parameter; this one instantiates it in the
    examples.  It follows the standard encoder with [ensure_ascii]: one item
    per line, nested levels indented by [n] spaces more, empty containers
    closed at once. *)

Module Json.

Definition chr (n : nat) : string := String (ascii_of_nat n) EmptyString.

Definition hex (n : nat) : string :=
  match String.get n "0123456789abcdef" with
  | Some c => String c EmptyString
  | None => EmptyString
  end.

Definition escape_char (c : ascii) : string :=
  let n := nat_of_ascii c in
  (if n =? 34 then chr 92 ++ chr 34
   else if n =? 92 then chr 92 ++ chr 92
   else if n =? 10 then chr 92 ++ "n"
   else if n =? 13 then chr 92 ++ "r"
   else if n =? 9 then chr 92 ++ "t"
   else if n =? 8 then chr 92 ++ "b"
   else if n =? 12 then chr 92 ++ "f"
   else if (32 <=? n) && (n <=? 126) then String c EmptyString
   else chr 92 ++ "u00" ++ hex (n / 16) ++ hex (n mod 16))%nat.

Fixpoint escape (s : string) : string :=
  match s with
  | EmptyString => EmptyString
  | String c s' => escape_char c ++ escape s'
  end.

Definition quote (s : string) : string := chr 34 ++ escape s ++ chr 34.

Fixpoint spaces (n : nat) : string :=
  match n with
  | O => EmptyString
  | S n' => String " " (spaces n')
  end.

Definition newline (indent level : nat) : string := chr 10 ++ spaces (indent * level).

Fixpoint dumps_at (indent level : nat) (v : pyval) {struct v} : string :=
  match v with
  | PNone => "null"
  | PBool true => "true"
  | PBool false => "false"
  | PInt z => PyStr.str_of_int z
  | PFloat r => r
  | PStr s => quote s
  | PList [] => "[]"
  | PList items =>
      "[" ++ newline indent (S level)
          ++ String.concat ("," ++ newline indent (S level))
               (map (dumps_at indent (S level)) items)
          ++ newline indent level ++ "]"
  | PDict [] => "{}"
  | PDict fields =>
      "{" ++ newline indent (S level)
          ++ String.concat ("," ++ newline indent (S level))
               (map (fun kv => quote (fst kv) ++ ": " ++ dumps_at indent (S level) (snd kv))
                    fields)
          ++ newline indent level ++ "}"
  end.

Definition dumps (indent : nat) (v : pyval) : string := dumps_at indent 0 v.

End Json.

(* ------------------------------------------------------------------------- *)
(** ** Sample environments *)

Module Demo.

Definition dq : string := Json.chr 34.

(** A well-behaved answer: status 200, an object with a [content] field. *)
Definition described : response :=
  mkResponse 200
    ("{" ++ dq ++ "content" ++ dq ++ ": " ++ dq ++ "a description" ++ dq ++ "}")
    (Ok (PDict [("content", PStr "a description")])).

(** Status 200 with a body that is valid JSON but an array. *)
Definition array_body : response := mkResponse 200 "[]" (Ok (PList [])).

(** Status 200 with an object lacking the field. *)
Definition empty_object : response := mkResponse 200 "{}" (Ok (PDict [])).

Definition not_found : response :=
  mkResponse 404 "model not found"
    (Error (mkExn "JSONDecodeError" "Expecting value: line 1 column 1 (char 0)")).

(** Status 200 with a body that is not JSON. *)
Definition garbled : response :=
  mkResponse 200 "<html>"
    (Error (mkExn "JSONDecodeError" "Expecting value: line 1 column 1 (char 0)")).

Definition refused : exn := mkExn "ConnectionError" "connection refused".

Definition denied (p : string) : exn :=
  OSError "PermissionError" "[Errno 13] Permission denied" p.

(** root/
      notes.txt
      cat.png
      sub/
        photo.JPG   (unreadable) *)
Definition tree (p : string) : option inode :=
  if (p =? "root")%string then Some (Dir (Ok ["notes.txt"; "cat.png"; "sub"]))
  else if (p =? "root/notes.txt")%string then Some (File (Ok [x68; x69]))
  else if (p =? "root/cat.png")%string then Some (File (Ok [x89; x50; x4e; x47]))
  else if (p =? "root/sub")%string then Some (Dir (Ok ["photo.JPG"]))
  else if (p =? "root/sub/photo.JPG")%string
       then Some (File (Error (denied "root/sub/photo.JPG")))
  else None.

(** root/
      a.txt
      locked/       (cannot be listed) *)
Definition tree_locked (p : string) : option inode :=
  if (p =? "root")%string then Some (Dir (Ok ["a.txt"; "locked"]))
  else if (p =? "root/a.txt")%string then Some (File (Ok [x61]))
  else if (p =? "root/locked")%string then Some (Dir (Error (denied "root/locked")))
  else None.

(** A directory that exists and cannot be listed. *)
Definition tree_private (p : string) : option inode :=
  if (p =? "vault")%string then Some (Dir (Error (denied "vault")))
  else None.

(** pics/
      blank.png    (zero bytes) *)
Definition tree_blank (p : string) : option inode :=
  if (p =? "pics")%string then Some (Dir (Ok ["blank.png"]))
  else if (p =? "pics/blank.png")%string then Some (File (Ok []))
  else None.

(** The root as completion leaves it, with the separator at its end:
    root/
      a.txt *)
Definition tree_slash (p : string) : option inode :=
  if ((p =? "root")%string || (p =? "root/")%string)%bool then Some (Dir (Ok ["a.txt"]))
  else if (p =? "root/a.txt")%string then Some (File (Ok [x61]))
  else None.

Definition cwd (p : string) : string := "/home/user/" ++ p.

Definition writable (p : string) : result unit := Ok tt.

Definition online (n : nat) (r : request) : result response := Ok described.

Definition offline (n : nat) (r : request) : result response := Error refused.

(** The sample tree with the service up; the user types the root. *)
Definition env : os_env := mkEnv tree cwd writable online (Ok "  root ").

(** The same tree with the service down. *)
Definition env_offline : os_env := mkEnv tree cwd writable offline (Ok "root").

(** The service answers 200 with a JSON array. *)
Definition env_array : os_env :=
  mkEnv tree cwd writable (fun _ _ => Ok array_body) (Ok "root").

(** The service answers 200 with an object that has no [content]. *)
Definition env_empty_object : os_env :=
  mkEnv tree cwd writable (fun _ _ => Ok empty_object) (Ok "root").

(** The service answers 200 with a body that is not JSON. *)
Definition env_garbled : os_env :=
  mkEnv tree cwd writable (fun _ _ => Ok garbled) (Ok "root").

(** The service answers 404. *)
Definition env_not_found : os_env :=
  mkEnv tree cwd writable (fun _ _ => Ok not_found) (Ok "root").

(** The user types the path of a regular file. *)
Definition env_file : os_env := mkEnv tree cwd writable online (Ok "root/notes.txt").


Definition env_locked : os_env := mkEnv tree_locked cwd writable online (Ok "root").

Definition env_private : os_env := mkEnv tree_private cwd writable online (Ok "vault").

Definition env_blank : os_env := mkEnv tree_blank cwd writable online (Ok "pics").

Definition env_slash : os_env := mkEnv tree_slash cwd writable online (Ok "root/").

Definition model : string := "llama3.2-vision".

(** The tree that scanning the sample tree returns when the service is up. *)
Definition scanned : pyval :=
  folder_with env "root" (PStr "a description")
    [file_node env "notes.txt" "root/notes.txt" (PStr "a description");
     file_node env "cat.png" "root/cat.png" (PStr "a description");
     folder_with env "root/sub" (PStr "a description")
       [file_node env "photo.JPG" "root/sub/photo.JPG"
          (PStr "Error encoding the image for description.")]].

End Demo.

(* ------------------------------------------------------------------------- *)
(** * Facts about strings and paths *)

Module PyStrFacts.
Import PyStr.

Lemma endswith_intro : forall pre suf, endswith (pre ++ suf) suf = true.
Proof.
  induction pre as [|c pre IH]; intros suf; simpl.
  - destruct suf; simpl; [reflexivity|].
    rewrite Ascii.eqb_refl, String.eqb_refl. reflexivity.
  - rewrite IH. apply orb_true_r.
Qed.

Lemma endswith_elim : forall s suf, endswith s suf = true -> exists pre, s = pre ++ suf.
Proof.
  induction s as [|c s IH]; intros suf H.
  - cbn [endswith] in H. rewrite orb_false_r in H. apply String.eqb_eq in H.
    exists EmptyString. subst suf. reflexivity.
  - cbn [endswith] in H. apply orb_true_iff in H. destruct H as [H | H].
    + apply String.eqb_eq in H. exists EmptyString. subst suf. reflexivity.
    + destruct (IH _ H) as [pre Hpre]. exists (String c pre). simpl. now rewrite Hpre.
Qed.

Lemma endswith_spec : forall s suf, endswith s suf = true <-> exists pre, s = pre ++ suf.
Proof.
  intros s suf. split.
  - apply endswith_elim.
  - intros [pre ->]. apply endswith_intro.
Qed.

Lemma endswith_any_spec : forall s sufs,
  endswith_any s sufs = true <-> exists suf pre, In suf sufs /\ s = pre ++ suf.
Proof.
  intros s sufs. unfold endswith_any. rewrite existsb_exists. split.
  - intros (suf & Hin & H). apply endswith_spec in H. destruct H as [pre H]. eauto.
  - intros (suf & pre & Hin & H). exists suf. split; [assumption|].
    apply endswith_spec. eauto.
Qed.

Lemma lower_ascii_idempotent : forall c, lower_ascii (lower_ascii c) = lower_ascii c.
Proof.
  intros [[] [] [] [] [] [] [] []]; reflexivity.
Qed.

Lemma lower_idempotent : forall s, lower (lower s) = lower s.
Proof.
  induction s as [|c s IH]; simpl; [reflexivity|].
  now rewrite lower_ascii_idempotent, IH.
Qed.

Lemma append_nonempty_r : forall a b : string, b <> EmptyString -> a ++ b <> EmptyString.
Proof.
  intros [|c a] b Hb; simpl; [assumption | discriminate].
Qed.

Lemma truthy_true : forall s, truthy s = true <-> s <> EmptyString.
Proof.
  intros s. unfold truthy. rewrite negb_true_iff. split.
  - intros H ->. discriminate.
  - intros H. destruct s; [congruence | reflexivity].
Qed.

End PyStrFacts.

Module PosixPathFacts.
Import PosixPath.

Lemma rfind_sep_lower_bound : forall p, -1 <= rfind_sep p.
Proof.
  induction p as [|c p IH]; simpl; [lia|].
  destruct (0 <=? rfind_sep p) eqn:E; [apply Z.leb_le in E; lia|].
  destruct (Ascii.eqb c "/"); lia.
Qed.

Lemma rfind_sep_app_plain : forall pre name,
  plain name -> rfind_sep (pre ++ String "/" name) = Z.of_nat (String.length pre).
Proof.
  unfold plain. induction pre as [|c pre IH]; intros name Hn.
  - simpl. rewrite Hn. reflexivity.
  - cbn [append rfind_sep String.length]. rewrite (IH _ Hn).
    destruct (0 <=? Z.of_nat (String.length pre)) eqn:E; [lia|].
    apply Z.leb_gt in E. lia.
Qed.

Lemma drop_past_sep : forall pre c rest,
  drop (S (String.length pre)) (pre ++ String c rest) = rest.
Proof.
  induction pre as [|c' pre IH]; intros c rest.
  - simpl. destruct rest; reflexivity.
  - cbn [String.length append]. cbn [drop]. apply IH.
Qed.

Lemma basename_after_sep : forall pre name,
  plain name -> basename (pre ++ String "/" name) = name.
Proof.
  intros pre name Hn. unfold basename. rewrite (rfind_sep_app_plain _ _ Hn).
  replace (Z.to_nat (Z.of_nat (String.length pre) + 1)) with (S (String.length pre)) by lia.
  apply drop_past_sep.
Qed.

Lemma basename_plain : forall name, plain name -> basename name = name.
Proof.
  intros name Hn. unfold basename. rewrite Hn. reflexivity.
Qed.

Lemma plain_not_absolute : forall name, plain name -> PyStr.startswith name "/" = false.
Proof.
  unfold plain. intros [|c name] Hn; [reflexivity|].
  unfold PyStr.startswith. cbn [String.prefix].
  cbn [rfind_sep] in Hn.
  destruct (0 <=? rfind_sep name); [pose proof (rfind_sep_lower_bound name); lia|].
  destruct (Ascii.eqb c "/") eqn:E; [discriminate|].
  destruct (ascii_dec "/" c) as [Heq|]; [|reflexivity].
  subst c. rewrite Ascii.eqb_refl in E. discriminate.
Qed.

(** The base name of an entry's path is the entry's name. *)
Lemma basename_join : forall folder name, plain name -> basename (join folder name) = name.
Proof.
  intros folder name Hn. unfold join. rewrite (plain_not_absolute _ Hn).
  destruct (folder =? "")%string eqn:E; simpl.
  - apply String.eqb_eq in E. subst folder. simpl. now apply basename_plain.
  - destruct (PyStr.endswith folder "/") eqn:E2.
    + apply PyStrFacts.endswith_elim in E2. destruct E2 as [pre ->].
      replace ((pre ++ "/") ++ name) with (pre ++ String "/" name).
      * now apply basename_after_sep.
      * clear. induction pre as [|c pre IH]; simpl; [reflexivity | now rewrite IH].
    + now apply basename_after_sep.
Qed.

(** Joining a non-empty name never gives the empty path. *)
Lemma join_nonempty : forall folder name, name <> EmptyString -> join folder name <> EmptyString.
Proof.
  intros folder name Hn. unfold join.
  destruct (PyStr.startswith name "/"); [assumption|].
  destruct ((folder =? "")%string || PyStr.endswith folder "/")%bool.
  - now apply PyStrFacts.append_nonempty_r.
  - apply PyStrFacts.append_nonempty_r. discriminate.
Qed.

End PosixPathFacts.

Module Base64Facts.
Import Base64.

(** Only the empty input encodes to the empty string. *)
Lemma b64encode_empty : forall bs, b64encode bs = EmptyString <-> bs = [].
Proof.
  intros bs. split.
  - destruct bs as [|a [|b [|c rest]]]; simpl; [reflexivity | discriminate ..].
  - intros ->. reflexivity.
Qed.

End Base64Facts.

(* ------------------------------------------------------------------------- *)
(** * Facts about the monad *)

Lemma bind_ret : forall {A B} (m : M A) (f : A -> M B) w a w1,
  m w = (Ret a, w1) -> bind m f w = f a w1.
Proof. intros A B m f w a w1 H. unfold bind. now rewrite H. Qed.

Lemma bind_raise : forall {A B} (m : M A) (f : A -> M B) w e w1,
  m w = (Raise e, w1) -> bind m f w = (Raise e, w1).
Proof. intros A B m f w e w1 H. unfold bind. now rewrite H. Qed.

Lemma bind_diverge : forall {A B} (m : M A) (f : A -> M B) w w1,
  m w = (Diverge, w1) -> bind m f w = (Diverge, w1).
Proof. intros A B m f w w1 H. unfold bind. now rewrite H. Qed.

Lemma bind_ret_inv : forall {A B} (m : M A) (f : A -> M B) w b w',
  bind m f w = (Ret b, w') ->
  exists a w1, m w = (Ret a, w1) /\ f a w1 = (Ret b, w').
Proof.
  intros A B m f w b w' H. unfold bind in H.
  destruct (m w) as [[a | e |] w1]; try discriminate. eauto.
Qed.

(* ------------------------------------------------------------------------- *)
(** * The describer *)

Section DescriberFacts.

Variable env : os_env.

Lemma send_eq : forall payload w,
  send env payload w =
  (Ret (answer_of (post env (length (requests w)) (mkRequest url headers payload))),
   after_request w (mkRequest url headers payload)).
Proof.
  intros payload w. unfold send, try_except, bind, requests_post, answer_of, after_request.
  destruct (post env _ _) as [resp | e]; [|reflexivity].
  destruct (status_code resp =? 200); [|reflexivity].
  destruct (json resp) as [body | e]; [|reflexivity].
  cbn. destruct (PyDict.get body "content" _); reflexivity.
Qed.

Lemma encode_image_to_base64_eq : forall path w,
  encode_image_to_base64 env path w =
  match read_binary env path with
  | Ok img => (Ret (Some (Base64.b64encode img)), w)
  | Error e =>
      (Ret None,
       after_print w ("Error encoding image: " ++ path ++ ". Error: " ++ exn_str e))
  end.
Proof.
  intros path w. unfold encode_image_to_base64, try_except, bind.
  destruct (read_binary env path); reflexivity.
Qed.

(** The describer always returns, and what it returns is [described_as]. *)
Lemma describe_with_curl_eq : forall model image_path text w,
  describe_with_curl env model image_path text w =
  (Ret (fst (described_as env model image_path text w)),
   snd (described_as env model image_path text w)).
Proof.
  intros model image_path text w. unfold describe_with_curl, described_as, image_mode.
  destruct (if_truthy image_path) as [path|]; [|apply send_eq].
  unfold bind. rewrite encode_image_to_base64_eq.
  destruct (read_binary env path) as [img | e]; [|reflexivity].
  destruct (if_truthy (Some (Base64.b64encode img))) as [data|]; [apply send_eq | reflexivity].
Qed.

Lemma describe_with_curl_ret_inv : forall model image_path text w v w',
  describe_with_curl env model image_path text w = (Ret v, w') ->
  (v, w') = described_as env model image_path text w.
Proof.
  intros model image_path text w v w' H. rewrite describe_with_curl_eq in H.
  inversion H. now destruct (described_as env model image_path text w).
Qed.

(** The describer writes no file, and only adds to the console and to the
    requests. *)
Lemma described_as_frame : forall model image_path text w,
  let w' := snd (described_as env model image_path text w) in
  written w' = written w /\
  (exists lines, stdout w' = (stdout w ++ lines)%list) /\
  (exists rs, requests w' = (requests w ++ rs)%list /\ (length rs <= 1)%nat).
Proof.
  intros model image_path text w. unfold described_as, image_mode, text_mode.
  destruct (if_truthy image_path) as [path|].
  - destruct (read_binary env path) as [img | e].
    + destruct (if_truthy (Some (Base64.b64encode img))); simpl.
      * repeat split; [exists [] | exists [image_request model s]];
          rewrite ?app_nil_r; auto.
      * repeat split; [exists [] | exists []]; rewrite ?app_nil_r; auto.
    + simpl. repeat split; [eexists; reflexivity | exists []]; rewrite ?app_nil_r; auto.
  - simpl. repeat split; [exists [] | eexists; split; [reflexivity|]];
      rewrite ?app_nil_r; auto.
Qed.

End DescriberFacts.

(* ------------------------------------------------------------------------- *)
(** * The walker: what a returned tree looks like *)

Section WalkerFacts.

Variable env : os_env.

Lemma append_child_folder : forall p d cs child w,
  append_child (folder_with env p d cs) child w =
  (Ret (folder_with env p d (cs ++ [child])), w).
Proof. reflexivity. Qed.

Lemma folder_node_is_folder_with : forall p d, folder_node env p d = folder_with env p d [].
Proof. reflexivity. Qed.

(** One turn of the loop returns exactly when the entry yields a child, which
    is then the last child of the folder. *)
Lemma scan_item_ret : forall recur p m item d cs w r w',
  scan_item env recur p m item (folder_with env p d cs) w = (Ret r, w') <->
  exists child,
    item_result env recur p m item w child w' /\
    r = folder_with env p d (cs ++ [child]).
Proof.
  intros recur p m item d cs w r w'. unfold scan_item, item_result.
  destruct (isdir env (PosixPath.join p item)).
  - split.
    + intros H. apply bind_ret_inv in H. destruct H as (child & w1 & Hc & Ha).
      rewrite append_child_folder in Ha. inversion Ha; subst. eauto.
    + intros (child & Hc & ->). rewrite (bind_ret _ _ _ _ _ Hc).
      apply append_child_folder.
  - split.
    + intros H. apply bind_ret_inv in H. destruct H as (descr & w1 & Hd & Ha).
      rewrite append_child_folder in Ha. inversion Ha; subst. eauto.
    + intros (child & (descr & Hd & ->) & ->). rewrite (bind_ret _ _ _ _ _ Hd).
      apply append_child_folder.
Qed.

(** The whole loop returns exactly when every entry, in order, yields its
    child. *)
Lemma loop_ret : forall recur p m d items cs w r w',
  for_each items (scan_item env recur p m) (folder_with env p d cs) w = (Ret r, w') <->
  exists cs',
    items_results env recur p m items w cs' w' /\
    r = folder_with env p d (cs ++ cs').
Proof.
  intros recur p m d items. induction items as [|item items IH]; intros cs w r w'.
  - simpl. unfold ret. split.
    + intros H. inversion H; subst. exists []. rewrite app_nil_r.
      split; [constructor | reflexivity].
    + intros (cs' & Hrs & ->). inversion Hrs; subst. now rewrite app_nil_r.
  - cbn [for_each]. split.
    + intros H. apply bind_ret_inv in H. destruct H as (r1 & w1 & H1 & H2).
      apply scan_item_ret in H1. destruct H1 as (child & Hc & ->).
      apply IH in H2. destruct H2 as (cs' & Hrs & ->).
      exists (child :: cs'). split; [econstructor; eassumption|].
      now rewrite <- app_assoc.
    + intros (cs' & Hrs & ->). inversion Hrs; subst.
      erewrite bind_ret.
      2:{ apply scan_item_ret. eexists. split; [eassumption | reflexivity]. }
      apply IH. eexists. split; [eassumption|]. now rewrite <- app_assoc.
Qed.

(** [scan_folder] returns a node exactly when the listing succeeds and every
    entry yields its child; the node is then the folder's dict holding those
    children, described by the answer to the folder's own request. *)
Lemma scan_folder_ret : forall fuel p m w node w',
  scan_folder env (S fuel) p m w = (Ret node, w') <->
  exists items cs,
    listdir env p = Ok items /\
    items_results env (scan_folder env fuel) p m items
      (snd (described_as env m None (Some (PosixPath.basename p)) w)) cs w' /\
    node = folder_with env p
             (fst (described_as env m None (Some (PosixPath.basename p)) w)) cs.
Proof.
  intros fuel p m w node w'. cbn [scan_folder].
  erewrite bind_ret by apply describe_with_curl_eq.
  rewrite folder_node_is_folder_with.
  destruct (listdir env p) as [items | e]; cbn [lift].
  - erewrite bind_ret by reflexivity. rewrite loop_ret. split.
    + intros (cs & Hrs & ->). exists items, cs. auto.
    + intros (items' & cs & Heq & Hrs & ->). inversion Heq; subst. eauto.
  - erewrite bind_raise by reflexivity. split; [discriminate|].
    intros (items & cs & Heq & _). discriminate.
Qed.

Lemma scan_folder_zero : forall p m w,
  scan_folder env 0 p m w = (Raise RecursionError, w).
Proof. reflexivity. Qed.

(** From the children of the entries to the relation [mirrors] asks for. *)
Lemma items_results_mirror : forall recur p m items w cs w',
  (forall q w1 c w2, recur q m w1 = (Ret c, w2) -> mirrors env q c) ->
  items_results env recur p m items w cs w' ->
  Forall2 (fun item child =>
             (isdir env (PosixPath.join p item) = true ->
              mirrors env (PosixPath.join p item) child) /\
             (isdir env (PosixPath.join p item) = false ->
              leaf_for env p item child))
          items cs.
Proof.
  intros recur p m items w cs w' Hrec Hrs. induction Hrs as [|item items w child w1 cs w2 Hi _ IH].
  - constructor.
  - constructor; [|exact IH]. unfold item_result in Hi.
    destruct (isdir env (PosixPath.join p item)).
    + split; [|discriminate]. intros _. eapply Hrec, Hi.
    + split; [discriminate|]. intros _. destruct Hi as (descr & _ & ->).
      repeat split.
Qed.

(** Whatever [scan_folder] returns is the fully populated tree. *)
Lemma scan_folder_mirrors : forall fuel p m w node w',
  scan_folder env fuel p m w = (Ret node, w') -> mirrors env p node.
Proof.
  induction fuel as [|fuel IH]; intros p m w node w' H.
  - discriminate.
  - apply scan_folder_ret in H. destruct H as (items & cs & Hl & Hrs & ->).
    eapply mirrors_folder with (items := items) (cs := cs); try reflexivity; [assumption|].
    eapply items_results_mirror; [|eassumption].
    intros q w1 c w2. apply IH.
Qed.

End WalkerFacts.

(* ------------------------------------------------------------------------- *)
(** * Facts about lists *)

Lemma Forall2_In_r : forall {A B} (R : A -> B -> Prop) l1 l2 b,
  Forall2 R l1 l2 -> In b l2 -> exists a, In a l1 /\ R a b.
Proof.
  intros A B R l1 l2 b H. induction H as [|x y l1 l2 Hxy _ IH]; intros Hin.
  - contradiction.
  - destruct Hin as [-> | Hin].
    + exists x. split; [left; reflexivity | assumption].
    + destruct (IH Hin) as (a & Ha & HR). exists a. split; [right|]; assumption.
Qed.

Lemma Forall2_length_eq : forall {A B} (R : A -> B -> Prop) l1 l2,
  Forall2 R l1 l2 -> length l1 = length l2.
Proof.
  intros A B R l1 l2 H. induction H; simpl; congruence.
Qed.

(* ------------------------------------------------------------------------- *)
(** * The invariant of the tree *)

Section TreeFacts.

Variable env : os_env.

Lemma node_shape_children_iff_folder : forall n, node_shape n -> children_iff_folder n.
Proof.
  intros n [[Ht [cs Hc]] | [Ht Hc]]; unfold children_iff_folder; rewrite Ht, Hc.
  - split; [reflexivity | discriminate].
  - split; [congruence | discriminate].
Qed.

Lemma in_tree_leaf : forall n x, field "children" n = None -> in_tree n x -> x = n.
Proof.
  intros n x Hn Hin. destruct Hin as [|root child n Hc _]; [reflexivity|].
  unfold children_of in Hc. rewrite Hn in Hc. contradiction.
Qed.

Lemma leaf_for_shape : forall p item child, leaf_for env p item child -> node_shape child.
Proof.
  intros p item child (_ & _ & Ht & Hc). right. auto.
Qed.

(** Every node of a fully populated tree has one of the two shapes. *)
Lemma mirrors_node_shape : forall node n,
  in_tree node n -> forall p, mirrors env p node -> node_shape n.
Proof.
  intros node n Hin. induction Hin as [n | root child n Hc Hin IH]; intros p Hm.
  - inversion Hm; subst. left. eauto.
  - inversion Hm as [p' node' items cs Hl Hname Hpath Htype Hchildren Hall]; subst.
    unfold children_of in Hc. rewrite Hchildren in Hc.
    destruct (Forall2_In_r _ _ _ _ Hall Hc) as (item & _ & Hd & Hf).
    destruct (isdir env (PosixPath.join p item)) eqn:E.
    + eapply IH, Hd. reflexivity.
    + specialize (Hf eq_refl).
      assert (n = child) as -> by (eapply in_tree_leaf; [apply Hf | exact Hin]).
      eapply leaf_for_shape, Hf.
Qed.

End TreeFacts.

(* ------------------------------------------------------------------------- *)
(** * Frame: what a scan leaves untouched *)

Section FrameFacts.

Variable env : os_env.

Lemma steady_refl : forall w, steady w w.
Proof. intros w. split; [reflexivity | exists []; now rewrite app_nil_r]. Qed.

Lemma steady_trans : forall w1 w2 w3, steady w1 w2 -> steady w2 w3 -> steady w1 w3.
Proof.
  intros w1 w2 w3 [Hw1 [rs1 Hr1]] [Hw2 [rs2 Hr2]]. split; [congruence|].
  exists (rs1 ++ rs2)%list. rewrite Hr2, Hr1. now rewrite app_assoc.
Qed.

Lemma steady_m_ret : forall {A} (a : A), steady_m (ret a).
Proof. intros A a w. apply steady_refl. Qed.

Lemma steady_m_lift : forall {A} (r : result A), steady_m (lift r).
Proof. intros A [a | e] w; apply steady_refl. Qed.

Lemma steady_m_bind : forall {A B} (m : M A) (f : A -> M B),
  steady_m m -> (forall a, steady_m (f a)) -> steady_m (bind m f).
Proof.
  intros A B m f Hm Hf w. unfold bind. specialize (Hm w).
  destruct (m w) as [[a | e |] w1]; simpl in *; [|assumption ..].
  eapply steady_trans; [exact Hm | apply Hf].
Qed.

Lemma steady_m_for_each : forall {A S} (body : A -> S -> M S) items,
  (forall x s, steady_m (body x s)) -> forall s, steady_m (for_each items body s).
Proof.
  intros A S body items Hb. induction items as [|x items IH]; intros s; simpl.
  - apply steady_m_ret.
  - apply steady_m_bind; [apply Hb | exact IH].
Qed.

Lemma steady_m_describe : forall model image_path text,
  steady_m (describe_with_curl env model image_path text).
Proof.
  intros model image_path text w. rewrite describe_with_curl_eq. simpl.
  destruct (described_as_frame env model image_path text w) as (Hw & _ & rs & Hr & _).
  split; eauto.
Qed.

Lemma steady_m_append_child : forall result child, steady_m (append_child result child).
Proof.
  intros result child. unfold append_child.
  apply steady_m_bind; [apply steady_m_lift|]. intros children.
  apply steady_m_bind; [apply steady_m_lift|]. intros children'.
  destruct result; apply steady_m_ret.
Qed.

Lemma steady_m_scan_item : forall recur p m item result,
  (forall q, steady_m (recur q m)) -> steady_m (scan_item env recur p m item result).
Proof.
  intros recur p m item result Hrec. unfold scan_item.
  destruct (isdir env (PosixPath.join p item)).
  - apply steady_m_bind; [apply Hrec | intros; apply steady_m_append_child].
  - apply steady_m_bind; [apply steady_m_describe | intros; apply steady_m_append_child].
Qed.

(** A scan writes no file and only adds requests, however it ends. *)
Lemma steady_m_scan_folder : forall fuel p m, steady_m (scan_folder env fuel p m).
Proof.
  induction fuel as [|fuel IH]; intros p m.
  - intros w. apply steady_refl.
  - cbn [scan_folder]. apply steady_m_bind; [apply steady_m_describe|]. intros d.
    apply steady_m_bind; [apply steady_m_lift|]. intros items.
    apply steady_m_for_each. intros item result.
    apply steady_m_scan_item. intros q. apply IH.
Qed.

End FrameFacts.

(* ------------------------------------------------------------------------- *)
(** * Termination *)

Section TerminationFacts.

Variable env : os_env.

Lemma halts_ret : forall {A} (a : A), halts (ret a).
Proof. intros A a w. discriminate. Qed.

Lemma halts_lift : forall {A} (r : result A), halts (lift r).
Proof. intros A [a | e] w; discriminate. Qed.

Lemma halts_bind : forall {A B} (m : M A) (f : A -> M B),
  halts m -> (forall a, halts (f a)) -> halts (bind m f).
Proof.
  intros A B m f Hm Hf w. unfold bind. specialize (Hm w).
  destruct (m w) as [[a | e |] w1]; simpl in *; [apply Hf | discriminate | congruence].
Qed.

Lemma halts_bind_at : forall {A B} (m : M A) (f : A -> M B) w,
  fst (m w) <> Diverge ->
  (forall a w1, m w = (Ret a, w1) -> fst (f a w1) <> Diverge) ->
  fst (bind m f w) <> Diverge.
Proof.
  intros A B m f w Hm Hf. unfold bind.
  destruct (m w) as [[a | e |] w1]; simpl in *; [now apply Hf | discriminate | congruence].
Qed.

Lemma halts_describe : forall model image_path text,
  halts (describe_with_curl env model image_path text).
Proof. intros model image_path text w. rewrite describe_with_curl_eq. discriminate. Qed.

Lemma halts_append_child : forall result child, halts (append_child result child).
Proof.
  intros result child. unfold append_child.
  apply halts_bind; [apply halts_lift|]. intros children.
  apply halts_bind; [apply halts_lift|]. intros children'.
  destruct result; apply halts_ret.
Qed.

Lemma halts_for_each : forall {A S} (body : A -> S -> M S) items,
  (forall x s, In x items -> halts (body x s)) -> forall s, halts (for_each items body s).
Proof.
  intros A S body items. induction items as [|x items IH]; intros Hb s; simpl.
  - apply halts_ret.
  - apply halts_bind; [apply Hb; now left|]. intros s'. apply IH.
    intros y s'' Hy. apply Hb. now right.
Qed.

Lemma halts_scan_item : forall recur p m item result,
  (isdir env (PosixPath.join p item) = true -> halts (recur (PosixPath.join p item) m)) ->
  halts (scan_item env recur p m item result).
Proof.
  intros recur p m item result Hrec. unfold scan_item.
  destruct (isdir env (PosixPath.join p item)).
  - apply halts_bind; [now apply Hrec | intros; apply halts_append_child].
  - apply halts_bind; [apply halts_describe | intros; apply halts_append_child].
Qed.

(** A scan always terminates: its recursion is no deeper than the stack has
    room for. *)
Lemma halts_scan_folder : forall fuel p m, halts (scan_folder env fuel p m).
Proof.
  induction fuel as [|fuel IH]; intros p m.
  - intros w. discriminate.
  - cbn [scan_folder]. apply halts_bind; [apply halts_describe|]. intros d.
    apply halts_bind; [apply halts_lift|]. intros items.
    apply halts_for_each. intros item s _.
    apply halts_scan_item. intros _. apply IH.
Qed.

Lemma nesting_within_more : forall n n' p,
  (n <= n')%nat -> nesting_within env n p -> nesting_within env n' p.
Proof.
  induction n as [|n IH]; intros n' p Hle Hn; [contradiction|].
  destruct n' as [|n']; [lia|]. cbn [nesting_within] in *.
  intros items item Hl Hin Hd. apply (IH n'); [lia|]. eapply Hn; eassumption.
Qed.

(** One depth that bounds the nesting below every directory of a listing. *)
Lemma common_depth : forall p items,
  (forall item, In item items -> isdir env (PosixPath.join p item) = true ->
     exists n, nesting_within env n (PosixPath.join p item)) ->
  exists n, forall item, In item items -> isdir env (PosixPath.join p item) = true ->
     nesting_within env n (PosixPath.join p item).
Proof.
  intros p items. induction items as [|x items IH]; intros H.
  - exists O. intros item [].
  - destruct IH as [n1 Hn1]; [intros item Hin; apply H; now right|].
    destruct (isdir env (PosixPath.join p x)) eqn:E.
    + destruct (H x (or_introl eq_refl) E) as [n2 Hn2].
      exists (Nat.max n1 n2). intros item [-> | Hin] Hd.
      * apply (nesting_within_more n2); [lia | exact Hn2].
      * apply (nesting_within_more n1); [lia | now apply Hn1].
    + exists n1. intros item [-> | Hin] Hd; [congruence | now apply Hn1].
Qed.

(** A finite tree nests within some depth. *)
Lemma finite_tree_nesting : forall p,
  finite_tree env p -> exists n, nesting_within env n p.
Proof.
  intros p Hfin. induction Hfin as [p _ IH].
  destruct (listdir env p) as [items | e] eqn:El.
  - destruct (common_depth p items) as [n Hn].
    { intros item Hin Hd. apply (IH items item eq_refl Hin Hd). }
    exists (S n). cbn [nesting_within]. intros items' item Hl Hin Hd.
    rewrite El in Hl. inversion Hl; subst items'. now apply Hn.
  - exists 1%nat. cbn [nesting_within]. intros items item Hl.
    rewrite El in Hl. discriminate.
Qed.



End TerminationFacts.

(* ------------------------------------------------------------------------- *)
(** * Scans that return *)

Section ReturnFacts.

Variable env : os_env.

Lemma scannable_finite_tree : forall p, scannable env p -> finite_tree env p.
Proof.
  intros p Hs. induction Hs as [p items Hl _ IH].
  constructor. intros items' item Hl' Hin Hd.
  rewrite Hl in Hl'. inversion Hl'; subst. now apply IH.
Qed.

Lemma scan_item_raises_only : forall (P : exn -> Prop) recur p m item d cs,
  (isdir env (PosixPath.join p item) = true ->
   raises_only P (recur (PosixPath.join p item) m)) ->
  raises_only P (scan_item env recur p m item (folder_with env p d cs)).
Proof.
  intros P recur p m item d cs Hrec w e. unfold scan_item.
  destruct (isdir env (PosixPath.join p item)).
  - destruct (recur (PosixPath.join p item) m w) as [[c | e' |] w1] eqn:E.
    + erewrite bind_ret by exact E. rewrite append_child_folder. discriminate.
    + erewrite bind_raise by exact E. intros He. inversion He; subst e'.
      apply (Hrec eq_refl w). now rewrite E.
    + erewrite bind_diverge by exact E. discriminate.
  - erewrite bind_ret by apply describe_with_curl_eq.
    rewrite append_child_folder. discriminate.
Qed.

Lemma loop_raises_only : forall (P : exn -> Prop) recur p m d items,
  (forall item, In item items -> isdir env (PosixPath.join p item) = true ->
     raises_only P (recur (PosixPath.join p item) m)) ->
  forall cs,
    raises_only P (for_each items (scan_item env recur p m) (folder_with env p d cs)).
Proof.
  intros P recur p m d items. induction items as [|item items IH]; intros Hrec cs w e.
  - discriminate.
  - cbn [for_each].
    destruct (scan_item env recur p m item (folder_with env p d cs) w)
      as [[r | e' |] w1] eqn:E.
    + erewrite bind_ret by exact E.
      apply scan_item_ret in E. destruct E as (child & _ & ->).
      apply IH. intros y Hy. apply Hrec. now right.
    + erewrite bind_raise by exact E. intros He. inversion He; subst e'.
      apply (scan_item_raises_only P recur p m item d cs
               (Hrec item (or_introl eq_refl)) w).
      now rewrite E.
    + erewrite bind_diverge by exact E. discriminate.
Qed.

(** Where every directory can be listed, the one exception that can leave
    the scan is [RecursionError]. *)
Lemma scannable_overflow_only : forall fuel p,
  scannable env p -> forall m, overflow_only (scan_folder env fuel p m).
Proof.
  induction fuel as [|fuel IH]; intros p Hs m w e.
  - intros He. now inversion He.
  - destruct Hs as [p items Hl Hsub]. cbn [scan_folder].
    erewrite bind_ret by apply describe_with_curl_eq.
    rewrite Hl. cbn [lift]. erewrite bind_ret by reflexivity.
    rewrite folder_node_is_folder_with.
    apply (loop_raises_only (fun e => e = RecursionError)).
    intros item Hin Hd. apply IH. now apply Hsub.
Qed.

(** An exception that leaves the scan is [RecursionError] or the exception
    of a listing. *)
Lemma scan_raise_origin : forall fuel p m,
  raises_only (fun e => e = RecursionError \/ listing_error env e)
              (scan_folder env fuel p m).
Proof.
  induction fuel as [|fuel IH]; intros p m w e.
  - intros He. left. now inversion He.
  - cbn [scan_folder].
    erewrite bind_ret by apply describe_with_curl_eq.
    destruct (listdir env p) as [items | e'] eqn:Hl; cbn [lift].
    + erewrite bind_ret by reflexivity.
      rewrite folder_node_is_folder_with.
      apply (loop_raises_only (fun e => e = RecursionError \/ listing_error env e)).
      intros item _ _. apply IH.
    + erewrite bind_raise by reflexivity.
      intros He. inversion He; subst e'. right. now exists p.
Qed.

(** Where the stack has room for the nesting, it is the exception of a
    listing. *)
Lemma within_raises_listing : forall fuel p,
  nesting_within env fuel p ->
  forall m, raises_only (listing_error env) (scan_folder env fuel p m).
Proof.
  induction fuel as [|fuel IH]; intros p Hn m w e; [contradiction|].
  cbn [scan_folder].
  erewrite bind_ret by apply describe_with_curl_eq.
  destruct (listdir env p) as [items | e'] eqn:Hl; cbn [lift].
  - erewrite bind_ret by reflexivity.
    rewrite folder_node_is_folder_with.
    apply (loop_raises_only (listing_error env)).
    intros item Hin Hd. apply IH.
    cbn [nesting_within] in Hn. now apply (Hn items item).
  - erewrite bind_raise by reflexivity.
    intros He. inversion He; subst e'. now exists p.
Qed.

Lemma loop_returns : forall recur p m d items,
  (forall item, In item items -> isdir env (PosixPath.join p item) = true ->
     forall w, exists c w', recur (PosixPath.join p item) m w = (Ret c, w')) ->
  forall cs w, exists r w',
    for_each items (scan_item env recur p m) (folder_with env p d cs) w = (Ret r, w').
Proof.
  intros recur p m d items. induction items as [|item items IH]; intros Hrec cs w.
  - exists (folder_with env p d cs), w. reflexivity.
  - cbn [for_each].
    assert (Hitem : exists child w1,
              item_result env recur p m item w child w1).
    { unfold item_result. destruct (isdir env (PosixPath.join p item)) eqn:E.
      - apply (Hrec item (or_introl eq_refl) E w).
      - eexists. eexists. eexists. split; [apply describe_with_curl_eq | reflexivity]. }
    destruct Hitem as (child & w1 & Hi).
    erewrite bind_ret.
    2:{ apply scan_item_ret. exists child. split; [exact Hi | reflexivity]. }
    apply IH. intros y Hy. apply Hrec. now right.
Qed.

(** A folder whose directories can all be listed and nest within the room
    on the stack is scanned to its fully populated tree, from any world and
    whatever the service answers. *)
Lemma scannable_returns : forall fuel p,
  scannable env p -> nesting_within env fuel p ->
  forall m w, exists node w',
    scan_folder env fuel p m w = (Ret node, w') /\
    mirrors env p node /\
    steady w w'.
Proof.
  induction fuel as [|fuel IH]; intros p Hs Hn m w; [contradiction|].
  assert (Hrun : exists node w', scan_folder env (S fuel) p m w = (Ret node, w')).
  { destruct Hs as [p items Hl Hsub]. cbn [scan_folder].
    erewrite bind_ret by apply describe_with_curl_eq.
    rewrite Hl. cbn [lift]. erewrite bind_ret by reflexivity.
    rewrite folder_node_is_folder_with.
    apply loop_returns. intros item Hin Hd w1.
    destruct (IH (PosixPath.join p item) (Hsub item Hin Hd)
                 (Hn items item Hl Hin Hd) m w1) as (c & w2 & Hc & _).
    eauto. }
  destruct Hrun as (node & w' & Hrun). exists node, w'.
  split; [exact Hrun|]. split; [eapply scan_folder_mirrors, Hrun|].
  pose proof (steady_m_scan_folder env (S fuel) p m w) as Hst.
  now rewrite Hrun in Hst.
Qed.

End ReturnFacts.

(** A scan that returns has listed every directory it met. *)
Lemma scan_returns_scannable : forall env fuel p m w node w',
  scan_folder env fuel p m w = (Ret node, w') -> scannable env p.
Proof.
  intros env. induction fuel as [|fuel IH]; intros p m w node w' H.
  - discriminate.
  - apply scan_folder_ret in H. destruct H as (items & cs & Hl & Hrs & _).
    apply scannable_intro with (items := items); [assumption|].
    clear Hl. induction Hrs as [|item items w1 child w2 cs w3 Hi _ IHrs].
    + intros item [].
    + intros y [-> | Hy] Hd; [|now apply IHrs].
      unfold item_result in Hi. rewrite Hd in Hi. eapply IH, Hi.
Qed.

(** A scan that returns met no nesting deeper than the stack had room for. *)
Lemma scan_returns_within : forall env fuel p m w node w',
  scan_folder env fuel p m w = (Ret node, w') -> nesting_within env fuel p.
Proof.
  intros env. induction fuel as [|fuel IH]; intros p m w node w' H.
  - discriminate.
  - apply scan_folder_ret in H. destruct H as (items & cs & Hl & Hrs & _).
    cbn [nesting_within]. intros items' item Hl' Hin Hd.
    rewrite Hl in Hl'. inversion Hl'; subst items'. clear Hl Hl'.
    induction Hrs as [|item0 items w1 child w2 cs w3 Hi _ IHrs]; [contradiction|].
    destruct Hin as [-> | Hin]; [|now apply IHrs].
    unfold item_result in Hi. rewrite Hd in Hi. eapply IH, Hi.
Qed.

(* ------------------------------------------------------------------------- *)
(** * The program as a whole *)

Section MainFacts.

Variable env : os_env.
Variable json_dumps : nat -> pyval -> string.

Lemma main_missing : forall fuel w line,
  input_line env = Ok line ->
  path_exists env (PyStr.strip line) = false ->
  main env json_dumps fuel w =
  (Ret tt, after_print (after_print w prompt) "The specified folder does not exist.").
Proof.
  intros fuel w line Hline Hex. unfold main, input, bind, print.
  rewrite Hline. cbn [lift ret]. rewrite Hex. reflexivity.
Qed.

(** When the root exists, the run is the scan followed by the write. *)
Lemma main_existing : forall fuel w line,
  input_line env = Ok line ->
  path_exists env (PyStr.strip line) = true ->
  main env json_dumps fuel w =
  match scan_folder env fuel (PyStr.strip line) "llama3.2-vision" (scan_start w) with
  | (Ret tree, w2) =>
      match open_w env (output_file (PyStr.strip line)) with
      | Ok _ =>
          (Ret tt,
           after_print
             (mkWorld (stdout w2) (requests w2)
                (written w2 ++ [(output_file (PyStr.strip line), json_dumps 4 tree)]))
             ("Folder structure saved to " ++ output_file (PyStr.strip line)))
      | Error e => (Raise e, w2)
      end
  | (Raise e, w2) => (Raise e, w2)
  | (Diverge, w2) => (Diverge, w2)
  end.
Proof.
  intros fuel w line Hline Hex. unfold main, input, bind, print.
  rewrite Hline. cbn [lift ret]. rewrite Hex. cbn [negb].
  unfold scan_start, after_print, prompt. cbn [stdout requests written].
  destruct (scan_folder env fuel _ _ _) as [[tree | e |] w2]; [|reflexivity ..].
  unfold write_text, bind, output_file.
  destruct (open_w env _) as [u | e]; reflexivity.
Qed.

(** A root that is a regular file passes the existence check and stops the
    run at the listing: one request was made, no file is written. *)
Lemma main_on_file : forall fuel w line contents,
  input_line env = Ok line ->
  fs env (PyStr.strip line) = Some (File contents) ->
  path_exists env (PyStr.strip line) = true /\
  main env json_dumps (S fuel) w =
  (Raise (NotADirectoryError (PyStr.strip line)),
   snd (described_as env "llama3.2-vision" None
          (Some (PosixPath.basename (PyStr.strip line))) (scan_start w))).
Proof.
  intros fuel w line contents Hline Hfs.
  assert (Hex : path_exists env (PyStr.strip line) = true)
    by (unfold path_exists; now rewrite Hfs).
  split; [exact Hex|].
  rewrite (main_existing _ _ _ Hline Hex). cbn [scan_folder].
  erewrite bind_ret by apply describe_with_curl_eq.
  unfold listdir. rewrite Hfs. reflexivity.
Qed.

End MainFacts.

(* ------------------------------------------------------------------------- *)
(** * The describer: totality, answers, encoding failures *)

(** What can be listed and how deep it nests is a matter of the filesystem
    alone. *)
Lemma listdir_same_fs : forall env env', fs env' = fs env ->
  forall p, listdir env' p = listdir env p.
Proof.
  intros env env' Hfs p. unfold listdir. rewrite Hfs.
  destruct (fs env p) as [[c | entries]|]; reflexivity.
Qed.

Lemma isdir_same_fs : forall env env', fs env' = fs env ->
  forall p, isdir env' p = isdir env p.
Proof. intros env env' Hfs p. unfold isdir. now rewrite Hfs. Qed.

Lemma scannable_same_fs : forall env env', fs env' = fs env ->
  forall p, scannable env p -> scannable env' p.
Proof.
  intros env env' Hfs p Hs. induction Hs as [p items Hl _ IH].
  apply scannable_intro with (items := items).
  - now rewrite (listdir_same_fs env env' Hfs).
  - intros item Hin Hd. apply IH; [assumption|].
    now rewrite <- (isdir_same_fs env env' Hfs).
Qed.

Lemma nesting_within_same_fs : forall env env', fs env' = fs env ->
  forall n p, nesting_within env n p -> nesting_within env' n p.
Proof.
  intros env env' Hfs. induction n as [|n IH]; intros p Hn; [contradiction|].
  cbn [nesting_within] in *. intros items item Hl Hin Hd. apply IH.
  apply (Hn items item); [|assumption|].
  - now rewrite <- (listdir_same_fs env env' Hfs).
  - now rewrite <- (isdir_same_fs env env' Hfs).
Qed.

(** The value returned by a call that made the request [r] is the reading of
    what the service did with [r]. *)
Lemma describe_answer : forall env model image_path text w v w' r,
  describe_with_curl env model image_path text w = (Ret v, w') ->
  requests w' = (requests w ++ [r])%list ->
  v = answer_of (post env (length (requests w)) r).
Proof.
  intros env model image_path text w v w' r H Hr.
  apply describe_with_curl_ret_inv in H.
  unfold described_as, image_mode, text_mode in H.
  assert (Hno : requests w <> (requests w ++ [r])%list).
  { intros Heq. apply (f_equal (@length _)) in Heq. rewrite length_app in Heq.
    simpl in Heq. lia. }
  destruct (if_truthy image_path) as [path|].
  - destruct (read_binary env path) as [img | e].
    + destruct (if_truthy (Some (Base64.b64encode img))) as [data|];
        inversion H; subst; simpl in Hr.
      * apply app_inv_head in Hr. now inversion Hr.
      * now elim Hno.
    + inversion H; subst; simpl in Hr. now elim Hno.
  - inversion H; subst; simpl in Hr. apply app_inv_head in Hr. now inversion Hr.
Qed.

(** On every response but a status 200 whose body is not an object, the
    reading of the code is the answer the specification words. *)
Lemma answer_of_specified : forall resp,
  status_code resp <> 200 \/ (exists d, json resp = Ok (PDict d)) ->
  answer_of (Ok resp) = specified_answer resp.
Proof.
  intros resp [Hs | [d Hj]]; unfold answer_of, specified_answer.
  - apply Z.eqb_neq in Hs. now rewrite Hs.
  - rewrite Hj. destruct (status_code resp =? 200); reflexivity.
Qed.

(** C1. [describe_with_curl] is total: for every model, image path, text and
    world it returns a value, never an exception.  When the request it made
    fails in transport with the exception [e], the value is the string
    "Error making the request: " followed by [str(e)].  And the traversal
    around it goes on.  Whatever the service does on each request ([post env]
    is arbitrary, so it may fail every time), a folder whose directories can
    all be listed, nested no deeper than the stack has room for, is scanned
    to the tree that holds one node per entry.  And a scan that returns with
    one service returns, on the same filesystem and with the same room on
    the stack, with every other service, again with one node per entry. *)
Theorem describer_is_total : forall env model,
  (forall image_path text w, exists v w',
      describe_with_curl env model image_path text w = (Ret v, w')) /\
  (forall image_path text w v w' r e,
      describe_with_curl env model image_path text w = (Ret v, w') ->
      requests w' = (requests w ++ [r])%list ->
      post env (length (requests w)) r = Error e ->
      v = PStr ("Error making the request: " ++ exn_str e)) /\
  (forall fuel p, scannable env p -> nesting_within env fuel p ->
      forall w, exists node w',
        scan_folder env fuel p model w = (Ret node, w') /\ mirrors env p node) /\
  (forall env' fuel p w node w1,
      fs env' = fs env ->
      scan_folder env fuel p model w = (Ret node, w1) ->
      forall w2, exists node' w2',
        scan_folder env' fuel p model w2 = (Ret node', w2') /\ mirrors env' p node').
Proof.
  intros env model. split; [|split; [|split]].
  - intros image_path text w. rewrite describe_with_curl_eq. eauto.
  - intros image_path text w v w' r e H Hr Hpost.
    rewrite (describe_answer _ _ _ _ _ _ _ _ H Hr), Hpost. reflexivity.
  - intros fuel p Hs Hn w.
    destruct (scannable_returns env fuel p Hs Hn model w) as (node & w' & Hrun & Hm & _).
    eauto.
  - intros env' fuel p w node w1 Hfs H w2.
    pose proof (scan_returns_scannable _ _ _ _ _ _ _ H) as Hs.
    pose proof (scan_returns_within _ _ _ _ _ _ _ H) as Hn.
    destruct (scannable_returns env' fuel p
                (scannable_same_fs env env' Hfs p Hs)
                (nesting_within_same_fs env env' Hfs fuel p Hn) model w2)
      as (node' & w2' & Hrun & Hm & _).
    eauto.
Qed.

(** C3, as amended.  For the response [resp] received by a call: with status
    200 and a body that parses to an object, the value is the object's
    top-level [content], or "No description available" without that key; with
    status 200 and a body that parses to anything else, or does not parse,
    the value is "Error making the request: " and the exception's text; with
    any other status it is "Error: {status} - {body text}". *)
Theorem response_decides_description :
  forall env model image_path txt w v w' r resp,
  describe_with_curl env model image_path txt w = (Ret v, w') ->
  requests w' = (requests w ++ [r])%list ->
  post env (length (requests w)) r = Ok resp ->
  (status_code resp = 200 -> forall d, json resp = Ok (PDict d) ->
     v = match PyDict.lookup "content" d with
         | Some c => c
         | None => PStr "No description available"
         end) /\
  (status_code resp = 200 -> forall body, json resp = Ok body ->
     (forall d, body <> PDict d) ->
     v = PStr ("Error making the request: " ++ exn_str (PyDict.AttributeError body "get"))) /\
  (status_code resp = 200 -> forall e, json resp = Error e ->
     v = PStr ("Error making the request: " ++ exn_str e)) /\
  (status_code resp <> 200 ->
     v = PStr ("Error: " ++ PyStr.str_of_int (status_code resp) ++ " - " ++ text resp)).
Proof.
  intros env model image_path txt w v w' r resp H Hr Hpost.
  rewrite (describe_answer _ _ _ _ _ _ _ _ H Hr), Hpost. unfold answer_of.
  repeat split.
  - intros Hs d Hj. rewrite Hs, Hj. reflexivity.
  - intros Hs body Hj Hnd. rewrite Hs, Hj. cbn [Z.eqb Pos.eqb].
    destruct body; try reflexivity. now elim (Hnd fields).
  - intros Hs e Hj. rewrite Hs, Hj. reflexivity.
  - intros Hs. apply Z.eqb_neq in Hs. now rewrite Hs.
Qed.

(** C3, four runs: an object without [content], an array, a body that is
    not JSON, and a 404. *)
Lemma response_decides_description_witness :
  fst (describe_with_curl Demo.env_empty_object Demo.model None (Some "root") initial_world)
  = Ret (PStr "No description available") /\
  fst (describe_with_curl Demo.env_array Demo.model None (Some "root") initial_world)
  = Ret (PStr "Error making the request: 'list' object has no attribute 'get'") /\
  fst (describe_with_curl Demo.env_garbled Demo.model None (Some "root") initial_world)
  = Ret (PStr "Error making the request: Expecting value: line 1 column 1 (char 0)") /\
  fst (describe_with_curl Demo.env_not_found Demo.model None (Some "root") initial_world)
  = Ret (PStr "Error: 404 - model not found").
Proof.
  assert (run : forall env,
            describe_with_curl env Demo.model None (Some "root") initial_world =
            (Ret (fst (described_as env Demo.model None (Some "root") initial_world)),
             snd (described_as env Demo.model None (Some "root") initial_world)))
    by (intros env; apply describe_with_curl_eq).
  split; [|split; [|split]].
  - rewrite (run Demo.env_empty_object). apply (f_equal Ret).
    exact (proj1
      (response_decides_description Demo.env_empty_object Demo.model None (Some "root")
         initial_world _ _ (text_request Demo.model (Some "root")) Demo.empty_object
         (run _) eq_refl eq_refl) eq_refl [] eq_refl).
  - rewrite (run Demo.env_array). apply (f_equal Ret).
    refine (proj1 (proj2
      (response_decides_description Demo.env_array Demo.model None (Some "root")
         initial_world _ _ (text_request Demo.model (Some "root")) Demo.array_body
         (run _) eq_refl eq_refl)) eq_refl (PList []) eq_refl _).
    discriminate.
  - rewrite (run Demo.env_garbled). apply (f_equal Ret).
    exact (proj1 (proj2 (proj2
      (response_decides_description Demo.env_garbled Demo.model None (Some "root")
         initial_world _ _ (text_request Demo.model (Some "root")) Demo.garbled
         (run _) eq_refl eq_refl))) eq_refl _ eq_refl).
  - rewrite (run Demo.env_not_found). apply (f_equal Ret).
    refine (proj2 (proj2 (proj2
      (response_decides_description Demo.env_not_found Demo.model None (Some "root")
         initial_world _ _ (text_request Demo.model (Some "root")) Demo.not_found
         (run _) eq_refl eq_refl))) _).
    discriminate.
Defined.

(** C3, the claim as worded fails: status 200 with a body that parses to an
    array.  The [content] field is absent from it, yet the value is not the
    fallback but the text of the [AttributeError] behind the prefix of a
    failed request. *)
Lemma array_body_is_not_the_fallback :
  post Demo.env_array 0 (text_request Demo.model (Some "root")) = Ok Demo.array_body /\
  status_code Demo.array_body = 200 /\
  json Demo.array_body = Ok (PList []) /\
  specified_answer Demo.array_body = PStr "No description available" /\
  fst (describe_with_curl Demo.env_array Demo.model None (Some "root") initial_world)
  = Ret (PStr "Error making the request: 'list' object has no attribute 'get'") /\
  fst (describe_with_curl Demo.env_array Demo.model None (Some "root") initial_world)
  <> Ret (specified_answer Demo.array_body).
Proof. repeat split. discriminate. Qed.

(** C6. In image mode, when reading the image raises, the call returns the
    literal "Error encoding the image for description." and makes no request;
    it prints one line and writes nothing. *)
Theorem encoding_failure_makes_no_request : forall env model path text w e,
  path <> EmptyString ->
  read_binary env path = Error e ->
  exists w',
    describe_with_curl env model (Some path) text w =
      (Ret (PStr "Error encoding the image for description."), w') /\
    requests w' = requests w /\
    written w' = written w /\
    stdout w' =
      (stdout w ++ [("Error encoding image: " ++ path ++ ". Error: " ++ exn_str e)%string])%list.
Proof.
  intros env model path text w e Hp Hread.
  rewrite describe_with_curl_eq. unfold described_as, image_mode, if_truthy.
  apply PyStrFacts.truthy_true in Hp. rewrite Hp, Hread.
  eexists. split; [reflexivity|]. repeat split.
Qed.

(** C6, a run: the unreadable photo of the sample tree. *)
Lemma encoding_failure_makes_no_request_witness :
  exists w',
    describe_with_curl Demo.env Demo.model (Some "root/sub/photo.JPG") (Some "photo.JPG")
      initial_world =
      (Ret (PStr "Error encoding the image for description."), w') /\
    requests w' = [] /\
    written w' = [] /\
    stdout w' =
      ["Error encoding image: root/sub/photo.JPG. Error: [Errno 13] Permission denied: 'root/sub/photo.JPG'"].
Proof.
  apply (encoding_failure_makes_no_request Demo.env Demo.model "root/sub/photo.JPG"
           (Some "photo.JPG") initial_world (Demo.denied "root/sub/photo.JPG")).
  - discriminate.
  - reflexivity.
Defined.

(* ------------------------------------------------------------------------- *)
(** * The walker: classification, shape and population of the tree *)

Lemma image_suffix_nonempty : forall item, has_image_suffix item = true -> item <> EmptyString.
Proof. intros item H ->. discriminate. Qed.

(** In the sample tree every directory can be listed, whoever runs it. *)
Lemma sample_tree_scannable : forall env,
  fs env = Demo.tree -> scannable env "root".
Proof.
  intros env Hfs.
  apply scannable_intro with (items := ["notes.txt"; "cat.png"; "sub"]).
  { unfold listdir. rewrite Hfs. reflexivity. }
  intros item Hin Hd. unfold isdir in Hd. rewrite Hfs in Hd.
  destruct Hin as [<- | [<- | [<- | []]]]; try (vm_compute in Hd; discriminate).
  apply scannable_intro with (items := ["photo.JPG"]).
  { unfold listdir. rewrite Hfs. reflexivity. }
  intros item Hin Hd'. unfold isdir in Hd'. rewrite Hfs in Hd'.
  destruct Hin as [<- | []]. vm_compute in Hd'. discriminate.
Qed.

(** The sample tree nests two levels deep. *)
Lemma sample_tree_nesting : forall env,
  fs env = Demo.tree -> nesting_within env 2 "root".
Proof.
  intros env Hfs. cbn [nesting_within].
  intros items item Hl Hin Hd. unfold listdir in Hl. unfold isdir in Hd.
  rewrite Hfs in Hl, Hd. vm_compute in Hl. inversion Hl; subst items. clear Hl.
  destruct Hin as [<- | [<- | [<- | []]]]; try (vm_compute in Hd; discriminate).
  intros items item Hl Hin Hd'. unfold listdir in Hl. unfold isdir in Hd'.
  rewrite Hfs in Hl, Hd'. vm_compute in Hl. inversion Hl; subst items. clear Hl.
  destruct Hin as [<- | []]. vm_compute in Hd'. discriminate.
Qed.

(** C1, a run with the service down: the description of the root is the
    error line, and the whole sample tree is still visited, as it is with
    the service up. *)
Lemma describer_is_total_witness :
  fst (describe_with_curl Demo.env_offline Demo.model None (Some "root") initial_world)
  = Ret (PStr "Error making the request: connection refused") /\
  (forall w, exists node w',
     scan_folder Demo.env_offline 2 "root" Demo.model w = (Ret node, w') /\
     mirrors Demo.env_offline "root" node) /\
  (forall w2, exists node' w2',
     scan_folder Demo.env_offline 3 "root" Demo.model w2 = (Ret node', w2') /\
     mirrors Demo.env_offline "root" node').
Proof.
  split; [|split].
  - destruct (describe_with_curl Demo.env_offline Demo.model None (Some "root")
                initial_world) as [o w'] eqn:E.
    assert (E' := E). vm_compute in E'. inversion E'; subst. clear E'.
    exact (f_equal Ret
      (proj1 (proj2 (describer_is_total Demo.env_offline Demo.model))
         None (Some "root") initial_world _ _
         (text_request Demo.model (Some "root")) Demo.refused E eq_refl eq_refl)).
  - exact (proj1 (proj2 (proj2 (describer_is_total Demo.env_offline Demo.model)))
             2%nat "root" (sample_tree_scannable Demo.env_offline eq_refl)
             (sample_tree_nesting Demo.env_offline eq_refl)).
  - assert (E : scan_folder Demo.env 3 "root" Demo.model initial_world =
                (Ret Demo.scanned,
                 snd (scan_folder Demo.env 3 "root" Demo.model initial_world)))
      by (vm_compute; reflexivity).
    exact (proj2 (proj2 (proj2 (describer_is_total Demo.env Demo.model)))
             Demo.env_offline 3%nat "root" initial_world Demo.scanned _ eq_refl E).
Defined.

(** C2. For an entry that is not a directory the mode is a function of the
    lowercased name alone: image mode exactly when that name ends in [png],
    [jpg], [jpeg] or [gif].  In image mode the call reads the entry's full
    path; in text mode the request carries the entry's name, which is the
    base name of its path.  Either way the leaf appended holds the value the
    call returned. *)
Theorem mode_is_decided_by_suffix :
  (forall item,
     has_image_suffix item = true <->
     exists suf pre, In suf ["png"; "jpg"; "jpeg"; "gif"] /\ PyStr.lower item = pre ++ suf) /\
  (forall a b, PyStr.lower a = PyStr.lower b -> has_image_suffix a = has_image_suffix b) /\
  has_image_suffix "photo.JPG" = true /\
  has_image_suffix "photo.jpg" = true /\
  (forall env recur p m item d cs w,
     isdir env (PosixPath.join p item) = false ->
     scan_item env recur p m item (folder_with env p d cs) w =
     let dw := if has_image_suffix item
               then image_mode env m (PosixPath.join p item) w
               else text_mode env m (Some item) w in
     (Ret (folder_with env p d
             (cs ++ [file_node env item (PosixPath.join p item) (fst dw)])),
      snd dw)) /\
  (forall p item,
     PosixPath.plain item -> PosixPath.basename (PosixPath.join p item) = item).
Proof.
  split; [|split; [|split; [|split; [|split]]]].
  - intros item. unfold has_image_suffix. apply PyStrFacts.endswith_any_spec.
  - intros a b H. unfold has_image_suffix. now rewrite H.
  - reflexivity.
  - reflexivity.
  - intros env recur p m item d cs w Hd. unfold scan_item. rewrite Hd.
    erewrite bind_ret by apply describe_with_curl_eq.
    rewrite append_child_folder. unfold described_as.
    destruct (has_image_suffix item) eqn:E; [|reflexivity].
    unfold if_truthy.
    assert (Ht : PyStr.truthy (PosixPath.join p item) = true).
    { apply PyStrFacts.truthy_true, PosixPathFacts.join_nonempty.
      now apply image_suffix_nonempty. }
    rewrite Ht. reflexivity.
  - intros p item. apply PosixPathFacts.basename_join.
Qed.

(** C2, two runs: the image of the sample tree is sent in image mode, the
    notes in text mode; and the base name of an entry's path is its name. *)
Lemma mode_is_decided_by_suffix_witness :
  scan_item Demo.env (scan_folder Demo.env 0) "root" Demo.model "cat.png"
    (folder_with Demo.env "root" PNone []) initial_world =
  (Ret (folder_with Demo.env "root" PNone
          [file_node Demo.env "cat.png" "root/cat.png" (PStr "a description")]),
   after_request initial_world (image_request Demo.model "iVBORw==")) /\
  scan_item Demo.env (scan_folder Demo.env 0) "root" Demo.model "notes.txt"
    (folder_with Demo.env "root" PNone []) initial_world =
  (Ret (folder_with Demo.env "root" PNone
          [file_node Demo.env "notes.txt" "root/notes.txt" (PStr "a description")]),
   after_request initial_world (text_request Demo.model (Some "notes.txt"))) /\
  PosixPath.basename (PosixPath.join "root" "cat.png") = "cat.png".
Proof.
  split; [|split].
  - exact (proj1 (proj2 (proj2 (proj2 (proj2 mode_is_decided_by_suffix))))
             Demo.env (scan_folder Demo.env 0) "root" Demo.model "cat.png" PNone []
             initial_world eq_refl).
  - exact (proj1 (proj2 (proj2 (proj2 (proj2 mode_is_decided_by_suffix))))
             Demo.env (scan_folder Demo.env 0) "root" Demo.model "notes.txt" PNone []
             initial_world eq_refl).
  - exact (proj2 (proj2 (proj2 (proj2 (proj2 mode_is_decided_by_suffix))))
             "root" "cat.png" eq_refl).
Defined.

Section PopulationFacts.

Variable env : os_env.

Lemma listdir_ok_isdir : forall p items, listdir env p = Ok items -> isdir env p = true.
Proof.
  intros p items H. unfold listdir, isdir in *.
  destruct (fs env p) as [[c | entries]|]; [discriminate | reflexivity | discriminate].
Qed.

(** The children of a fully populated tree stand for the entries of the
    listing, one for one and in order. *)
Lemma mirrors_entries : forall p node,
  mirrors env p node ->
  exists items cs,
    listdir env p = Ok items /\
    field "children" node = Some (PList cs) /\
    Forall2 (entry_node env p) items cs.
Proof.
  intros p node Hm.
  inversion Hm as [p' node' items cs Hl Hname Hpath Htype Hchildren Hall]; subst.
  exists items, cs. repeat split; try assumption.
  eapply Forall2_impl; [|exact Hall]. intros item child [Hd Hf]. unfold entry_node.
  destruct (isdir env (PosixPath.join p item)).
  - specialize (Hd eq_refl). inversion Hd; subst. auto.
  - destruct (Hf eq_refl) as (Hn & Hp & Ht & _). auto.
Qed.

Lemma in_combine_Forall2 : forall {A B} (R : A -> B -> Prop) l1 l2 a b,
  Forall2 R l1 l2 -> In (a, b) (combine l1 l2) -> R a b.
Proof.
  intros A B R l1 l2 a b H. induction H as [|x y l1 l2 Hxy _ IH]; simpl; intros Hin.
  - contradiction.
  - destruct Hin as [Heq | Hin]; [inversion Heq; now subst | now apply IH].
Qed.

(** Whatever node of a fully populated tree stands for a path, it is the
    populated subtree of a directory or the leaf of another entry. *)
Lemma located_kind : forall p node q n,
  located env p node q n -> mirrors env p node ->
  (isdir env q = true /\ mirrors env q n) \/
  (isdir env q = false /\ exists parent item,
      q = PosixPath.join parent item /\ leaf_for env parent item n).
Proof.
  intros p node q n Hloc. induction Hloc as [p node | p node items cs item child q n Hl Hc Hin Hloc IH];
    intros Hm.
  - left. split; [|assumption]. inversion Hm; subst. eapply listdir_ok_isdir; eassumption.
  - inversion Hm as [p' node' items' cs' Hl' _ _ _ Hc' Hall]; subst.
    rewrite Hl in Hl'. inversion Hl'; subst items'.
    rewrite Hc in Hc'. inversion Hc'; subst cs'.
    destruct (in_combine_Forall2 _ _ _ _ _ Hall Hin) as [Hd Hf].
    destruct (isdir env (PosixPath.join p item)) eqn:E.
    + apply IH. now apply Hd.
    + specialize (Hf eq_refl). right.
      inversion Hloc as [| p1 node1 items1 cs1 item1 child1 q1 n1 Hl1]; subst.
      * split; [exact E|]. eauto.
      * apply listdir_ok_isdir in Hl1. congruence.
Qed.

End PopulationFacts.

(** C4. In every tree that [scan_folder] returns, every node has the
    [children] key exactly when its [type] is "folder"; and the node that
    stands for a path is a folder with its list of children when the path is
    a directory, and otherwise a leaf of type "file" without the key. *)
Theorem children_only_on_folders : forall env fuel p m w node w',
  scan_folder env fuel p m w = (Ret node, w') ->
  (forall n, in_tree node n -> children_iff_folder n) /\
  (forall q n, located env p node q n ->
     if isdir env q
     then field "type" n = Some (PStr "folder") /\
          exists cs, field "children" n = Some (PList cs)
     else field "type" n = Some (PStr "file") /\ field "children" n = None).
Proof.
  intros env fuel p m w node w' H. apply scan_folder_mirrors in H. split.
  - intros n Hin. apply node_shape_children_iff_folder.
    eapply mirrors_node_shape; eassumption.
  - intros q n Hloc.
    destruct (located_kind env p node q n Hloc H) as [[Hd Hm] | [Hd (parent & item & _ & Hf)]];
      rewrite Hd.
    + inversion Hm; subst. eauto.
    + destruct Hf as (_ & _ & Ht & Hc). auto.
Qed.

(** C4, a run: the tree scanned from the sample tree. *)
Lemma children_only_on_folders_witness :
  fst (scan_folder Demo.env 3 "root" Demo.model initial_world) = Ret Demo.scanned /\
  (forall n, in_tree Demo.scanned n -> children_iff_folder n) /\
  (forall q n, located Demo.env "root" Demo.scanned q n ->
     if isdir Demo.env q
     then field "type" n = Some (PStr "folder") /\
          exists cs, field "children" n = Some (PList cs)
     else field "type" n = Some (PStr "file") /\ field "children" n = None).
Proof.
  destruct (scan_folder Demo.env 3 "root" Demo.model initial_world) as [o w'] eqn:E.
  assert (E' := E). vm_compute in E'. inversion E'; subst o. clear E' H1.
  split; [reflexivity|].
  exact (children_only_on_folders Demo.env 3 "root" Demo.model initial_world _ _ E).
Defined.

Lemma entry_node_plain_name : forall env p item child,
  entry_node env p item child -> PosixPath.plain item ->
  field "name" child = Some (PStr item).
Proof.
  intros env p item child (_ & _ & Hn) Hplain. rewrite Hn.
  destruct (isdir env (PosixPath.join p item)); [|reflexivity].
  now rewrite PosixPathFacts.basename_join.
Qed.

(** C5, as amended.  For a folder in which every directory reached can be
    listed and is nested no deeper than the stack has room for,
    [scan_folder] returns a node of type "folder" whose [children] hold one
    node per entry of the listing, in the listing's order: the i-th child
    carries the path, the kind and (for a plain name) the name of the i-th
    entry. *)
Theorem scan_lists_every_entry : forall env fuel p,
  scannable env p -> nesting_within env fuel p ->
  forall m w,
  exists node w' items cs,
    scan_folder env fuel p m w = (Ret node, w') /\
    listdir env p = Ok items /\
    field "type" node = Some (PStr "folder") /\
    field "children" node = Some (PList cs) /\
    length cs = length items /\
    Forall2 (entry_node env p) items cs /\
    (Forall PosixPath.plain items ->
     map (field "name") cs = map (fun item => Some (PStr item)) items).
Proof.
  intros env fuel p Hs Hn m w.
  destruct (scannable_returns env fuel p Hs Hn m w) as (node & w' & Hrun & Hm & _).
  destruct (mirrors_entries env p node Hm) as (items & cs & Hl & Hc & Hall).
  exists node, w', items, cs. repeat split; try assumption.
  - inversion Hm; subst. assumption.
  - symmetry. eapply Forall2_length_eq, Hall.
  - clear - Hall. induction Hall as [|item child items cs He _ IH]; intros Hp.
    + reflexivity.
    + inversion Hp; subst. simpl. f_equal; [|now apply IH].
      eapply entry_node_plain_name; eassumption.
Qed.

(** C5, a run: the sample tree, with room for two nested calls. *)
Lemma scan_lists_every_entry_witness :
  exists node w' items cs,
    scan_folder Demo.env 2 "root" Demo.model initial_world = (Ret node, w') /\
    listdir Demo.env "root" = Ok items /\
    field "type" node = Some (PStr "folder") /\
    field "children" node = Some (PList cs) /\
    length cs = length items /\
    Forall2 (entry_node Demo.env "root") items cs /\
    (Forall PosixPath.plain items ->
     map (field "name") cs = map (fun item => Some (PStr item)) items).
Proof.
  exact (scan_lists_every_entry Demo.env 2 "root"
           (sample_tree_scannable Demo.env eq_refl)
           (sample_tree_nesting Demo.env eq_refl) Demo.model initial_world).
Defined.

(** C5, the claim as worded fails: a folder that exists and cannot be listed.
    Whatever room the stack has, the scan returns no node: it raises the
    listing's exception. *)
Lemma unlistable_folder_yields_no_node :
  path_exists Demo.env_private "vault" = true /\
  isdir Demo.env_private "vault" = true /\
  (forall fuel,
     fst (scan_folder Demo.env_private (S fuel) "vault" Demo.model initial_world)
     = Raise (Demo.denied "vault")) /\
  (forall fuel w node w',
     scan_folder Demo.env_private fuel "vault" Demo.model w <> (Ret node, w')).
Proof.
  split; [reflexivity|]. split; [reflexivity|]. split; [reflexivity|].
  intros fuel w node w' H. apply scan_returns_scannable in H.
  inversion H as [p items Hl Hsub]. vm_compute in Hl. discriminate.
Qed.

(** C9, as amended.  A finite tree without links back into an ancestor has a
    depth, and the stack has room for its nesting as soon as it has room for
    that many nested calls.  Whatever room there is, [scan_folder]
    terminates, having written nothing.  When every directory reached can be
    listed and the stack has room for the nesting, it returns the fully
    populated node.  Otherwise no node is returned and an exception leaves
    it: [RecursionError] or the exception of a listing; [RecursionError]
    when every directory can be listed, the exception of a listing when the
    stack has room for the nesting. *)
Theorem scan_terminates_on_finite_trees : forall env p,
  finite_tree env p ->
  (exists depth, forall fuel, (depth <= fuel)%nat -> nesting_within env fuel p) /\
  forall fuel m w,
    fst (scan_folder env fuel p m w) <> Diverge /\
    written (snd (scan_folder env fuel p m w)) = written w /\
    ((scannable env p /\ nesting_within env fuel p /\
      exists node w',
        scan_folder env fuel p m w = (Ret node, w') /\ mirrors env p node) \/
     (~ (scannable env p /\ nesting_within env fuel p) /\
      exists e w',
        scan_folder env fuel p m w = (Raise e, w') /\
        (e = RecursionError \/ listing_error env e) /\
        (scannable env p -> e = RecursionError) /\
        (nesting_within env fuel p -> listing_error env e))).
Proof.
  intros env p Hfin. split.
  - destruct (finite_tree_nesting env p Hfin) as [depth Hn].
    exists depth. intros fuel Hle. now apply (nesting_within_more env depth fuel p).
  - intros fuel m w.
    pose proof (halts_scan_folder env fuel p m w) as Hd.
    destruct (steady_m_scan_folder env fuel p m w) as [Hw _].
    pose proof (scan_raise_origin env fuel p m w) as Ho.
    pose proof (fun Hs => scannable_overflow_only env fuel p Hs m w) as Hso.
    pose proof (fun Hn => within_raises_listing env fuel p Hn m w) as Hnl.
    split; [assumption|]. split; [assumption|].
    destruct (scan_folder env fuel p m w) as [[node | e |] w'] eqn:E; simpl in *.
    + left. split; [eapply scan_returns_scannable, E|].
      split; [eapply scan_returns_within, E|].
      exists node, w'. split; [reflexivity|]. eapply scan_folder_mirrors, E.
    + right. split.
      * intros [Hs Hn].
        destruct (scannable_returns env fuel p Hs Hn m w) as (node & w1 & Hrun & _).
        congruence.
      * exists e, w'. split; [reflexivity|]. split; [now apply Ho|].
        split; [intros Hs; now apply Hso | intros Hn; now apply Hnl].
    + congruence.
Qed.

(** C9, a run: the sample tree is finite. *)
Lemma scan_terminates_on_finite_trees_witness :
  (exists depth, forall fuel, (depth <= fuel)%nat ->
     nesting_within Demo.env fuel "root") /\
  forall fuel m w,
    fst (scan_folder Demo.env fuel "root" m w) <> Diverge /\
    written (snd (scan_folder Demo.env fuel "root" m w)) = written w /\
    ((scannable Demo.env "root" /\ nesting_within Demo.env fuel "root" /\
      exists node w',
        scan_folder Demo.env fuel "root" m w = (Ret node, w') /\
        mirrors Demo.env "root" node) \/
     (~ (scannable Demo.env "root" /\ nesting_within Demo.env fuel "root") /\
      exists e w',
        scan_folder Demo.env fuel "root" m w = (Raise e, w') /\
        (e = RecursionError \/ listing_error Demo.env e) /\
        (scannable Demo.env "root" -> e = RecursionError) /\
        (nesting_within Demo.env fuel "root" -> listing_error Demo.env e))).
Proof.
  exact (scan_terminates_on_finite_trees Demo.env "root"
           (scannable_finite_tree Demo.env "root" (sample_tree_scannable Demo.env eq_refl))).
Defined.

Lemma locked_tree_finite : finite_tree Demo.env_locked "root".
Proof.
  constructor. intros items item Hl Hin Hd.
  vm_compute in Hl. inversion Hl; subst items. clear Hl.
  destruct Hin as [<- | [<- | []]]; [vm_compute in Hd; discriminate|].
  constructor. intros items item Hl _ _. vm_compute in Hl. discriminate.
Qed.

(** C9, the claim as worded fails: a finite tree, free of links, in which one
    subdirectory cannot be listed.  The scan terminates by raising; no node
    is returned. *)
Lemma locked_subfolder_yields_no_node :
  finite_tree Demo.env_locked "root" /\
  (forall fuel,
     fst (scan_folder Demo.env_locked (S (S fuel)) "root" Demo.model initial_world)
     = Raise (Demo.denied "root/locked")) /\
  (forall fuel w node w',
     scan_folder Demo.env_locked fuel "root" Demo.model w <> (Ret node, w')).
Proof.
  split; [exact locked_tree_finite|]. split; [reflexivity|].
  intros fuel w node w' H. apply scan_returns_scannable in H.
  inversion H as [p items Hl Hsub]; subst p.
  vm_compute in Hl. inversion Hl; subst items. clear Hl.
  assert (Hs : scannable Demo.env_locked "root/locked")
    by (apply (Hsub "locked"); [right; left; reflexivity | reflexivity]).
  inversion Hs as [p' items' Hl' _]. vm_compute in Hl'. discriminate.
Qed.

(* ------------------------------------------------------------------------- *)
(** * The requests behind the folders *)

Section RequestFacts.

Variable env : os_env.

Lemma steady_requests_length : forall w w',
  steady w w' -> (length (requests w) <= length (requests w'))%nat.
Proof.
  intros w w' [_ [rs Hr]]. rewrite Hr, length_app. lia.
Qed.

Lemma steady_nth_error : forall w w' k r,
  steady w w' -> nth_error (requests w) k = Some r -> nth_error (requests w') k = Some r.
Proof.
  intros w w' k r [_ [rs Hr]] Hk. rewrite Hr, nth_error_app1; [assumption|].
  apply nth_error_Some. congruence.
Qed.

Lemma item_result_steady : forall recur p m item w child w',
  (forall q, steady_m (recur q m)) ->
  item_result env recur p m item w child w' -> steady w w'.
Proof.
  intros recur p m item w child w' Hrec Hi. unfold item_result in Hi.
  destruct (isdir env (PosixPath.join p item)).
  - pose proof (Hrec (PosixPath.join p item) w) as Hs. now rewrite Hi in Hs.
  - destruct Hi as (d & Hd & _).
    pose proof (steady_m_describe env m
                  (if has_image_suffix item then Some (PosixPath.join p item) else None)
                  (Some item) w) as Hs.
    now rewrite Hd in Hs.
Qed.

Lemma items_results_steady : forall recur p m items w cs w',
  (forall q, steady_m (recur q m)) ->
  items_results env recur p m items w cs w' -> steady w w'.
Proof.
  intros recur p m items w cs w' Hrec Hrs.
  induction Hrs as [w | item items w child w1 cs w2 Hi _ IH].
  - apply steady_refl.
  - eapply steady_trans; [eapply item_result_steady; eassumption | exact IH].
Qed.

(** The run of the loop, cut at one of its entries. *)
Lemma items_results_in : forall recur p m items w cs w' item child,
  (forall q, steady_m (recur q m)) ->
  items_results env recur p m items w cs w' ->
  In (item, child) (combine items cs) ->
  exists wi wi',
    steady w wi /\ item_result env recur p m item wi child wi' /\ steady wi' w'.
Proof.
  intros recur p m items w cs w' item child Hrec Hrs.
  induction Hrs as [w | item0 items w child0 w1 cs w2 Hi Hrs IH]; simpl; intros Hin.
  - contradiction.
  - destruct Hin as [Heq | Hin].
    + inversion Heq; subst. exists w, w1. split; [apply steady_refl|].
      split; [assumption|]. eapply items_results_steady; eassumption.
    + destruct (IH Hin) as (wi & wi' & H1 & H2 & H3). exists wi, wi'.
      split; [|auto]. eapply steady_trans; [|exact H1].
      eapply item_result_steady; eassumption.
Qed.

Lemma bind_requests_after : forall {A B} (c : M A) (f : A -> M B) w a w1,
  c w = (Ret a, w1) -> steady_m (f a) ->
  exists rs, requests (snd (bind c f w)) = (requests w1 ++ rs)%list.
Proof.
  intros A B c f w a w1 Hc Hf. rewrite (bind_ret _ _ _ _ _ Hc).
  destruct (Hf w1) as [_ [rs Hr]]. exists rs. exact Hr.
Qed.

(** However a scan ends, its first effect is the text-mode request for the
    folder's base name. *)
Lemma scan_folder_first_request : forall fuel p m w,
  exists rest,
    requests (snd (scan_folder env (S fuel) p m w)) =
    (requests w ++ text_request m (Some (PosixPath.basename p)) :: rest)%list.
Proof.
  intros fuel p m w. cbn [scan_folder].
  edestruct (@bind_requests_after pyval pyval) as [rs Hr];
    [apply describe_with_curl_eq | | rewrite Hr].
  - apply steady_m_bind; [apply steady_m_lift|]. intros items.
    apply steady_m_for_each. intros item result.
    apply steady_m_scan_item. intros q. apply steady_m_scan_folder.
  - exists rs. simpl. now rewrite <- app_assoc.
Qed.

(** Every node that stands for a directory carries the directory's base name
    and the answer to a text-mode request made for that name during the
    scan. *)
Lemma folders_described : forall fuel p m w node w',
  scan_folder env fuel p m w = (Ret node, w') ->
  forall q n, located env p node q n -> isdir env q = true ->
    field "name" n = Some (PStr (PosixPath.basename q)) /\
    exists k,
      (length (requests w) <= k)%nat /\
      nth_error (requests w') k = Some (text_request m (Some (PosixPath.basename q))) /\
      field "description" n =
        Some (answer_of (post env k (text_request m (Some (PosixPath.basename q))))).
Proof.
  induction fuel as [|fuel IH]; intros p m w node w' H q n Hloc Hq.
  - discriminate.
  - apply scan_folder_ret in H. destruct H as (items & cs & Hl & Hrs & ->).
    assert (Hrec : forall q0, steady_m (scan_folder env fuel q0 m))
      by (intros q0; apply steady_m_scan_folder).
    pose proof (items_results_steady _ _ _ _ _ _ _ Hrec Hrs) as Hst.
    inversion Hloc as [p0 node0 | p0 node0 items0 cs0 item child q0 n0 Hl0 Hc0 Hin Hsub]; subst.
    + split; [reflexivity|]. exists (length (requests w)). split; [lia|].
      split; [|reflexivity].
      eapply steady_nth_error; [exact Hst|]. simpl.
      rewrite nth_error_app2 by lia. now rewrite Nat.sub_diag.
    + rewrite Hl in Hl0. inversion Hl0; subst items0.
      cbn in Hc0. inversion Hc0; subst cs0.
      destruct (items_results_in _ _ _ _ _ _ _ _ _ Hrec Hrs Hin)
        as (wi & wi' & Hs1 & Hi & Hs2).
      unfold item_result in Hi.
      destruct (isdir env (PosixPath.join p item)) eqn:E.
      * destruct (IH _ _ _ _ _ Hi _ _ Hsub Hq) as (Hname & k & Hk & Hnth & Hdescr).
        split; [exact Hname|]. exists k. split; [|split; [|exact Hdescr]].
        -- apply steady_requests_length in Hs1. simpl in Hs1.
           rewrite length_app in Hs1. lia.
        -- eapply steady_nth_error; eassumption.
      * exfalso. destruct Hi as (d & _ & ->).
        inversion Hsub as [| p1 node1 items1 cs1 item1 child1 q1 n1 Hl1]; subst.
        -- congruence.
        -- apply listdir_ok_isdir in Hl1. congruence.
Qed.

End RequestFacts.

(** C7. For every folder the walker visits, the root and every directory
    below it, the describer is called in text mode with the folder's base
    name and no image.  Every call of [scan_folder], however it ends, first
    makes the request whose one message is "Describe this: " followed by the
    base name of its folder, with no [images] key.  And in a returned tree,
    every node that stands for a directory carries that base name as its
    [name] and, as its [description], the answer to that request, whatever
    the folder is called or holds. *)
Theorem folders_are_described_by_name : forall env m,
  (forall fuel p w, exists rest,
     requests (snd (scan_folder env (S fuel) p m w)) =
     (requests w ++
      mkRequest "http://localhost:11434/api/chat"
        [("Content-Type", "application/json")]
        (PDict [("model", PStr m);
                ("messages",
                 PList [PDict [("role", PStr "user");
                               ("content",
                                PStr ("Describe this: " ++ PosixPath.basename p))]])])
      :: rest)%list) /\
  (forall fuel p w node w',
     scan_folder env fuel p m w = (Ret node, w') ->
     forall q n, located env p node q n -> isdir env q = true ->
       field "name" n = Some (PStr (PosixPath.basename q)) /\
       exists k request,
         (length (requests w) <= k)%nat /\
         nth_error (requests w') k = Some request /\
         request =
           mkRequest "http://localhost:11434/api/chat"
             [("Content-Type", "application/json")]
             (PDict [("model", PStr m);
                     ("messages",
                      PList [PDict [("role", PStr "user");
                                    ("content",
                                     PStr ("Describe this: " ++ PosixPath.basename q))]])]) /\
         field "description" n = Some (answer_of (post env k request))).
Proof.
  intros env m. split.
  - intros fuel p w. apply scan_folder_first_request.
  - intros fuel p w node w' H q n Hloc Hq.
    destruct (folders_described env fuel p m w node w' H q n Hloc Hq)
      as (Hname & k & Hk & Hnth & Hdescr).
    split; [exact Hname|].
    exists k, (text_request m (Some (PosixPath.basename q))).
    repeat split; assumption.
Qed.

(** C7, a run: the subfolder of the sample tree. *)
Lemma folders_are_described_by_name_witness :
  let sub := folder_with Demo.env "root/sub" (PStr "a description")
               [file_node Demo.env "photo.JPG" "root/sub/photo.JPG"
                  (PStr "Error encoding the image for description.")] in
  field "name" sub = Some (PStr "sub") /\
  exists k request,
    (0 <= k)%nat /\
    nth_error (requests (snd (scan_folder Demo.env 3 "root" Demo.model initial_world))) k
      = Some request /\
    request =
      mkRequest "http://localhost:11434/api/chat"
        [("Content-Type", "application/json")]
        (PDict [("model", PStr Demo.model);
                ("messages",
                 PList [PDict [("role", PStr "user");
                               ("content", PStr "Describe this: sub")]])]) /\
    field "description" sub = Some (answer_of (post Demo.env k request)).
Proof.
  intros sub.
  assert (E : scan_folder Demo.env 3 "root" Demo.model initial_world =
              (Ret Demo.scanned,
               snd (scan_folder Demo.env 3 "root" Demo.model initial_world)))
    by (vm_compute; reflexivity).
  refine (proj2 (folders_are_described_by_name Demo.env Demo.model) 3%nat "root"
            initial_world Demo.scanned _ E "root/sub" sub _ eq_refl).
  apply located_below
    with (items := ["notes.txt"; "cat.png"; "sub"])
         (cs := children_of Demo.scanned) (item := "sub") (child := sub).
  - reflexivity.
  - reflexivity.
  - right. right. left. reflexivity.
  - apply located_here.
Defined.

(* ------------------------------------------------------------------------- *)
(** * The run as a whole *)




(** C10. A path that exists and names a regular file passes the existence
    check; the listing in [scan_folder] then raises [NotADirectoryError],
    which nothing catches: the run ends with that exception after the one
    request made for the root, and no file is written. *)
Theorem file_root_aborts_the_run : forall env json_dumps fuel w line contents,
  input_line env = Ok line ->
  fs env (PyStr.strip line) = Some (File contents) ->
  path_exists env (PyStr.strip line) = true /\
  listdir env (PyStr.strip line) = Error (NotADirectoryError (PyStr.strip line)) /\
  exists w',
    main env json_dumps (S fuel) w = (Raise (NotADirectoryError (PyStr.strip line)), w') /\
    written w' = written w /\
    length (requests w') = S (length (requests w)).
Proof.
  intros env json_dumps fuel w line contents Hline Hfs.
  destruct (main_on_file env json_dumps fuel w line contents Hline Hfs) as [Hex Hrun].
  split; [exact Hex|]. split; [unfold listdir; now rewrite Hfs|].
  eexists. split; [exact Hrun|]. split; [reflexivity|].
  simpl. rewrite length_app. simpl. lia.
Qed.

(** C10, a run: the user enters the path of [notes.txt]. *)
Lemma file_root_aborts_the_run_witness :
  path_exists Demo.env_file "root/notes.txt" = true /\
  listdir Demo.env_file "root/notes.txt" = Error (NotADirectoryError "root/notes.txt") /\
  exists w',
    main Demo.env_file Json.dumps 1 initial_world
      = (Raise (NotADirectoryError "root/notes.txt"), w') /\
    written w' = [] /\
    length (requests w') = 1%nat.
Proof.
  exact (file_root_aborts_the_run Demo.env_file Json.dumps 0 initial_world
           "root/notes.txt" (Ok [x68; x69]) eq_refl eq_refl).
Defined.

(* ------------------------------------------------------------------------- *)
(** * Further properties *)

(** X5. A scan returns a node exactly when every directory below the folder
    can be listed and is nested no deeper than the stack has room for; the
    service plays no part in it.  Where every directory can be listed and
    the nesting is deeper than that, the scan ends in [RecursionError]. *)
Theorem returns_iff_scannable : forall env fuel p m,
  ((exists w node w', scan_folder env fuel p m w = (Ret node, w')) <->
   scannable env p /\ nesting_within env fuel p) /\
  (scannable env p -> ~ nesting_within env fuel p ->
   forall w, fst (scan_folder env fuel p m w) = Raise RecursionError).
Proof.
  intros env fuel p m. split; [split|].
  - intros (w & node & w' & H). split.
    + eapply scan_returns_scannable, H.
    + eapply scan_returns_within, H.
  - intros [Hs Hn].
    destruct (scannable_returns env fuel p Hs Hn m initial_world)
      as (node & w' & Hrun & _).
    exists initial_world, node, w'. exact Hrun.
  - intros Hs Hn w.
    pose proof (halts_scan_folder env fuel p m w) as Hd.
    pose proof (scannable_overflow_only env fuel p Hs m w) as Ho.
    destruct (scan_folder env fuel p m w) as [[node | e |] w'] eqn:E; simpl in *.
    + exfalso. apply Hn. eapply scan_returns_within, E.
    + now rewrite (Ho e eq_refl).
    + congruence.
Qed.

(** X5, a run: the sample tree nests two levels deep; with room for one call
    the scan ends in [RecursionError]. *)
Lemma returns_iff_scannable_witness :
  fst (scan_folder Demo.env 1 "root" Demo.model initial_world) = Raise RecursionError.
Proof.
  refine (proj2 (returns_iff_scannable Demo.env 1 "root" Demo.model)
            (sample_tree_scannable Demo.env eq_refl) _ initial_world).
  intros Hn.
  exact (Hn ["notes.txt"; "cat.png"; "sub"] "sub" eq_refl
            (or_intror (or_intror (or_introl eq_refl))) eq_refl).
Defined.



(** X2. An image file of zero bytes is read without error, yet its base64 text
    is empty, hence falsy: the call returns the encoding-failure literal,
    makes no request and prints nothing. *)
Theorem empty_image_counts_as_failure : forall env model path txt w,
  path <> EmptyString ->
  read_binary env path = Ok [] ->
  describe_with_curl env model (Some path) txt w =
  (Ret (PStr "Error encoding the image for description."), w).
Proof.
  intros env model path txt w Hp Hread.
  rewrite describe_with_curl_eq. unfold described_as, image_mode, if_truthy.
  apply PyStrFacts.truthy_true in Hp. rewrite Hp, Hread. reflexivity.
Qed.

(** X2, a run: the blank image of the sample pictures. *)
Lemma empty_image_counts_as_failure_witness :
  describe_with_curl Demo.env_blank Demo.model (Some "pics/blank.png") (Some "blank.png")
    initial_world =
  (Ret (PStr "Error encoding the image for description."), initial_world).
Proof.
  apply empty_image_counts_as_failure; [discriminate | reflexivity].
Defined.

Lemma lower_app : forall a b, PyStr.lower (a ++ b) = PyStr.lower a ++ PyStr.lower b.
Proof.
  induction a as [|c a IH]; intros b; simpl; [reflexivity | now rewrite IH].
Qed.

(** X3. The test looks at the end of the name, not at an extension: a name that
    ends in one of the four suffixes is an image whether or not a dot comes
    before it, in any letter case of the stem. *)
Theorem suffix_needs_no_dot : forall stem suf,
  In suf image_suffixes -> has_image_suffix (stem ++ suf) = true.
Proof.
  intros stem suf Hin. unfold has_image_suffix. apply PyStrFacts.endswith_any_spec.
  exists suf, (PyStr.lower stem). split; [assumption|].
  rewrite lower_app. f_equal.
  destruct Hin as [<- | [<- | [<- | [<- | []]]]]; reflexivity.
Qed.

(** X3, two names: a suffix in the middle does not count, one at the end
    does without a dot. *)
Lemma suffix_needs_no_dot_witness :
  has_image_suffix "png.txt" = false /\ has_image_suffix "backuppng" = true.
Proof.
  split; [reflexivity|].
  apply (suffix_needs_no_dot "backup" "png"). left. reflexivity.
Defined.

(* ------------------------------------------------------------------------- *)
(** * One call of the describer *)

Lemma if_truthy_b64 : forall img,
  if_truthy (Some (Base64.b64encode img)) =
  match img with
  | [] => None
  | _ => Some (Base64.b64encode img)
  end.
Proof.
  intros [|a [|b [|c rest]]]; reflexivity.
Qed.

Lemma app_one_neq : forall {A} (l : list A) x, l <> (l ++ [x])%list.
Proof.
  intros A l x H. apply (f_equal (@length A)) in H.
  rewrite length_app in H. simpl in H. lia.
Qed.

(** X6. One call of [describe_with_curl] writes no file and makes at most one
    request: none exactly when it is in image mode and the image cannot be
    read or holds no byte, one in every other case.  It prints one line
    exactly when reading the image raised, and nothing otherwise. *)
Theorem describe_makes_at_most_one_request : forall env model image_path txt w,
  let w' := snd (describe_with_curl env model image_path txt w) in
  written w' = written w /\
  ((silent_image env image_path /\ requests w' = requests w) \/
   (~ silent_image env image_path /\
    exists r, requests w' = (requests w ++ [r])%list /\ request_for model r)) /\
  ((exists path e,
      if_truthy image_path = Some path /\ read_binary env path = Error e /\
      stdout w' =
        (stdout w ++
         [("Error encoding image: " ++ path ++ ". Error: " ++ exn_str e)%string])%list) \/
   ((forall path e, if_truthy image_path = Some path -> read_binary env path <> Error e) /\
    stdout w' = stdout w)).
Proof.
  intros env model image_path txt w. rewrite describe_with_curl_eq.
  cbn [snd]. unfold described_as, image_mode, text_mode, silent_image.
  destruct (if_truthy image_path) as [path|] eqn:Ei.
  - destruct (read_binary env path) as [img | e] eqn:Er.
    + rewrite if_truthy_b64. destruct img as [|b img'].
      * split; [reflexivity|]. split.
        -- left. split; [|reflexivity]. exists path. rewrite Er. auto.
        -- right. split; [|reflexivity]. intros path' e Hp. inversion Hp; subst.
           rewrite Er. discriminate.
      * split; [reflexivity|]. split.
        -- right. split.
           ++ intros (path' & Hp & [H | [e H]]); inversion Hp; subst;
                rewrite Er in H; discriminate.
           ++ eexists. split; [reflexivity|]. repeat split.
              exists (image_message (Base64.b64encode (b :: img'))). eexists.
              repeat split.
        -- right. split; [|reflexivity]. intros path' e Hp. inversion Hp; subst.
           rewrite Er. discriminate.
    + split; [reflexivity|]. split.
      * left. split; [|reflexivity]. exists path. rewrite Er. eauto.
      * left. exists path, e. auto.
  - split; [reflexivity|]. split.
    + right. split.
      * intros (path' & Hp & _). discriminate.
      * eexists. split; [reflexivity|]. repeat split.
        exists (text_message txt). eexists. repeat split.
    + right. split; [|reflexivity]. intros path' e Hp. discriminate.
Qed.

(* ------------------------------------------------------------------------- *)
(** * What a run sends and prints *)

Lemma prefix_append : forall a b, String.prefix a (a ++ b) = true.
Proof.
  induction a as [|c a IH]; intros b; simpl.
  - destruct b; reflexivity.
  - destruct (ascii_dec c c) as [_ | Hne]; [apply IH | now elim Hne].
Qed.

Section EmitFacts.

Variable env : os_env.
Variables (P : request -> Prop) (Q : string -> Prop).

Lemma emits_ret : forall {A} (a : A), emits P Q (ret a).
Proof.
  intros A a w. exists [], []. simpl. rewrite !app_nil_r. auto.
Qed.

Lemma emits_lift : forall {A} (r : result A), emits P Q (lift r).
Proof.
  intros A [a | e] w; exists [], []; simpl; rewrite !app_nil_r; auto.
Qed.

Lemma emits_bind : forall {A B} (c : M A) (f : A -> M B),
  emits P Q c -> (forall a, emits P Q (f a)) -> emits P Q (bind c f).
Proof.
  intros A B c f Hc Hf w. unfold bind.
  destruct (Hc w) as (rs & lines & Hr & HP & Hl & HQ).
  destruct (c w) as [[a | e |] w1]; simpl in *; [|eauto 6 ..].
  destruct (Hf a w1) as (rs' & lines' & Hr' & HP' & Hl' & HQ').
  exists (rs ++ rs')%list, (lines ++ lines')%list.
  rewrite Hr', Hr, Hl', Hl, !app_assoc.
  repeat split; auto; apply Forall_app; auto.
Qed.

Lemma emits_for_each : forall {A S} (body : A -> S -> M S) items,
  (forall x s, emits P Q (body x s)) -> forall s, emits P Q (for_each items body s).
Proof.
  intros A S body items Hb. induction items as [|x items IH]; intros s; simpl.
  - apply emits_ret.
  - apply emits_bind; [apply Hb | exact IH].
Qed.

Lemma emits_print : forall line, Q line -> emits P Q (print line).
Proof.
  intros line Hq w. exists [], [line]. simpl. rewrite app_nil_r. auto.
Qed.

Lemma emits_append_child : forall result child, emits P Q (append_child result child).
Proof.
  intros result child. unfold append_child.
  apply emits_bind; [apply emits_lift|]. intros children.
  apply emits_bind; [apply emits_lift|]. intros children'.
  destruct result; apply emits_ret.
Qed.

Lemma emits_write_text : forall path content, emits P Q (write_text env path content).
Proof.
  intros path content. unfold write_text.
  apply emits_bind; [apply emits_lift|]. intros _ w.
  exists [], []. simpl. rewrite !app_nil_r. auto.
Qed.

End EmitFacts.

Lemma emits_weaken : forall {A} (P P' : request -> Prop) (Q Q' : string -> Prop) (c : M A),
  (forall r, P r -> P' r) -> (forall l, Q l -> Q' l) -> emits P Q c -> emits P' Q' c.
Proof.
  intros A P P' Q Q' c HP HQ Hc w.
  destruct (Hc w) as (rs & lines & Hr & Hrs & Hl & Hls).
  exists rs, lines. repeat split; auto.
  - eapply Forall_impl; [exact HP | exact Hrs].
  - eapply Forall_impl; [exact HQ | exact Hls].
Qed.

Lemma request_for_text : forall model txt, request_for model (text_request model txt).
Proof.
  intros model txt. repeat split. exists (text_message txt). eexists. repeat split.
Qed.

Lemma request_for_image : forall model data, request_for model (image_request model data).
Proof.
  intros model data. repeat split. exists (image_message data). eexists. repeat split.
Qed.

Lemma emits_describe : forall env model image_path txt,
  emits (request_for model) encoding_error_line
    (describe_with_curl env model image_path txt).
Proof.
  intros env model image_path txt w. rewrite describe_with_curl_eq. cbn [snd].
  unfold described_as, image_mode, text_mode.
  destruct (if_truthy image_path) as [path|].
  - destruct (read_binary env path) as [img | e].
    + destruct (if_truthy (Some (Base64.b64encode img))) as [data|].
      * exists [image_request model data], []. simpl. rewrite app_nil_r.
        repeat split; auto. constructor; [apply request_for_image | constructor].
      * exists [], []. rewrite !app_nil_r. auto.
    + eexists [], [_]. simpl. rewrite app_nil_r. repeat split; auto.
      constructor; [|constructor]. unfold encoding_error_line, PyStr.startswith.
      apply (prefix_append "Error encoding image: ").
  - exists [text_request model txt], []. simpl. rewrite app_nil_r.
    repeat split; auto. constructor; [apply request_for_text | constructor].
Qed.

Lemma emits_scan_item : forall env recur p m item result,
  (forall q, emits (request_for m) encoding_error_line (recur q m)) ->
  emits (request_for m) encoding_error_line (scan_item env recur p m item result).
Proof.
  intros env recur p m item result Hrec. unfold scan_item.
  destruct (isdir env (PosixPath.join p item)).
  - apply emits_bind; [apply Hrec | intros; apply emits_append_child].
  - apply emits_bind; [apply emits_describe | intros; apply emits_append_child].
Qed.

Lemma emits_scan_folder : forall env fuel p m,
  emits (request_for m) encoding_error_line (scan_folder env fuel p m).
Proof.
  intros env. induction fuel as [|fuel IH]; intros p m.
  - intros w. exists [], []. simpl. rewrite !app_nil_r. auto.
  - cbn [scan_folder]. apply emits_bind; [apply emits_describe|]. intros d.
    apply emits_bind; [apply emits_lift|]. intros items.
    apply emits_for_each. intros item result.
    apply emits_scan_item. intros q. apply IH.
Qed.

Lemma emits_main : forall env json_dumps fuel,
  emits (request_for "llama3.2-vision")
        (fun line => main_line line \/ encoding_error_line line)
        (main env json_dumps fuel).
Proof.
  intros env json_dumps fuel. unfold main, input.
  apply emits_bind.
  { apply emits_bind; [|intros; apply emits_lift].
    apply emits_print. left. left. reflexivity. }
  intros line. destruct (negb (path_exists env (PyStr.strip line))).
  - apply emits_print. left. right. left. reflexivity.
  - apply emits_bind; [apply emits_print; left; right; right; left; reflexivity|].
    intros _. apply emits_bind.
    { eapply emits_weaken; [| |apply emits_scan_folder]; auto. }
    intros tree. apply emits_bind; [apply emits_write_text|]. intros _.
    apply emits_print. left. right. right. right.
    unfold PyStr.startswith. apply (prefix_append "Folder structure saved to ").
Qed.

(** X7. Every request made in a run goes to the fixed endpoint with the fixed
    header, names the model of the run, and carries one message of the user:
    so for every call of [scan_folder] with the model it was given, however
    the call ends, and for [main] with "llama3.2-vision".  Requests already
    made are never altered. *)
Theorem every_request_is_well_formed : forall env,
  (forall fuel p m w, exists rs,
     requests (snd (scan_folder env fuel p m w)) = (requests w ++ rs)%list /\
     Forall (request_for m) rs) /\
  (forall json_dumps fuel w, exists rs,
     requests (snd (main env json_dumps fuel w)) = (requests w ++ rs)%list /\
     Forall (request_for "llama3.2-vision") rs).
Proof.
  intros env. split.
  - intros fuel p m w.
    destruct (emits_scan_folder env fuel p m w) as (rs & _ & Hr & HP & _). eauto.
  - intros json_dumps fuel w.
    destruct (emits_main env json_dumps fuel w) as (rs & _ & Hr & HP & _). eauto.
Qed.

(** X8. A scan prints nothing but the lines of failed encodings, each
    starting with "Error encoding image: ", however it ends; it never takes
    a line back. *)
Theorem scan_prints_only_encoding_errors : forall env fuel p m w,
  exists lines,
    stdout (snd (scan_folder env fuel p m w)) = (stdout w ++ lines)%list /\
    Forall encoding_error_line lines.
Proof.
  intros env fuel p m w.
  destruct (emits_scan_folder env fuel p m w) as (_ & lines & _ & _ & Hl & HQ). eauto.
Qed.

(* ------------------------------------------------------------------------- *)
(** * The leaves and the cost of a scan *)

Lemma nth_error_after_request : forall w r,
  nth_error (requests (after_request w r)) (length (requests w)) = Some r.
Proof.
  intros w r. simpl. rewrite nth_error_app2 by lia. now rewrite Nat.sub_diag.
Qed.

(** The description of a leaf, read off the call made for it. *)
Lemma describe_leaf : forall env m p item w d w',
  describe_with_curl env m
    (if has_image_suffix item then Some (PosixPath.join p item) else None)
    (Some item) w = (Ret d, w') ->
  leaf_described env m w w' item (PosixPath.join p item) d.
Proof.
  intros env m p item w d w' H. apply describe_with_curl_ret_inv in H.
  unfold leaf_described, silent_image.
  destruct (has_image_suffix item) eqn:E.
  - assert (Ht : if_truthy (Some (PosixPath.join p item)) = Some (PosixPath.join p item)).
    { unfold if_truthy.
      replace (PyStr.truthy (PosixPath.join p item)) with true; [reflexivity|].
      symmetry. apply PyStrFacts.truthy_true, PosixPathFacts.join_nonempty.
      now apply image_suffix_nonempty. }
    unfold described_as in H. rewrite Ht in H. unfold image_mode in H.
    destruct (read_binary env (PosixPath.join p item)) as [img | e] eqn:Er.
    + rewrite if_truthy_b64 in H. destruct img as [|b img'].
      * inversion H; subst. left. split; [reflexivity|].
        eexists. split; [exact Ht | left; exact Er].
      * inversion H; subst. right. exists (length (requests w)), (b :: img').
        repeat split; [discriminate | lia | apply nth_error_after_request].
    + inversion H; subst. left. split; [reflexivity|].
      eexists. split; [exact Ht | right; eexists; exact Er].
  - unfold described_as, text_mode in H. cbn [if_truthy] in H. inversion H; subst.
    exists (length (requests w)). repeat split; [lia | apply nth_error_after_request].
Qed.

Lemma leaf_described_widen : forall env m w0 w w' w1 item q d,
  steady w0 w -> steady w' w1 ->
  leaf_described env m w w' item q d -> leaf_described env m w0 w1 item q d.
Proof.
  intros env m w0 w w' w1 item q d H0 H1. unfold leaf_described.
  pose proof (steady_requests_length _ _ H0) as Hlen.
  destruct (has_image_suffix item).
  - intros [H | (k & img & Hr & Hne & Hk & Hnth & Hd)]; [now left | right].
    exists k, img. repeat split; auto; [lia | eapply steady_nth_error; eassumption].
  - intros (k & Hk & Hnth & Hd). exists k.
    repeat split; auto; [lia | eapply steady_nth_error; eassumption].
Qed.

Lemma leaves_described : forall env fuel p m w node w',
  scan_folder env fuel p m w = (Ret node, w') ->
  forall q n, located env p node q n -> isdir env q = false ->
  exists parent item d,
    q = PosixPath.join parent item /\
    n = file_node env item q d /\
    leaf_described env m w w' item q d.
Proof.
  intros env. induction fuel as [|fuel IH]; intros p m w node w' H q n Hloc Hq.
  - discriminate.
  - apply scan_folder_ret in H. destruct H as (items & cs & Hl & Hrs & ->).
    assert (Hrec : forall q0, steady_m (scan_folder env fuel q0 m))
      by (intros q0; apply steady_m_scan_folder).
    assert (Hs0 : steady w (snd (described_as env m None (Some (PosixPath.basename p)) w))).
    { pose proof (steady_m_describe env m None (Some (PosixPath.basename p)) w) as Hs.
      now rewrite describe_with_curl_eq in Hs. }
    inversion Hloc as [p0 node0 | p0 node0 items0 cs0 item child q0 n0 Hl0 Hc0 Hin Hsub]; subst.
    + apply listdir_ok_isdir in Hl. congruence.
    + rewrite Hl in Hl0. inversion Hl0; subst items0.
      cbn in Hc0. inversion Hc0; subst cs0.
      destruct (items_results_in _ _ _ _ _ _ _ _ _ _ Hrec Hrs Hin)
        as (wi & wi' & Hs1 & Hi & Hs2).
      unfold item_result in Hi.
      destruct (isdir env (PosixPath.join p item)) eqn:E.
      * destruct (IH _ _ _ _ _ Hi _ _ Hsub Hq) as (parent & item' & d & Hqe & Hn & Hd).
        exists parent, item', d. repeat split; auto.
        eapply leaf_described_widen; [|exact Hs2|exact Hd].
        eapply steady_trans; eassumption.
      * destruct Hi as (d & Hd & ->).
        inversion Hsub as [| p1 node1 items1 cs1 item1 child1 q1 n1 Hl1]; subst.
        -- exists p, item, d. repeat split.
           eapply leaf_described_widen; [|exact Hs2|eapply describe_leaf, Hd].
           eapply steady_trans; eassumption.
        -- apply listdir_ok_isdir in Hl1. congruence.
Qed.

(** X9. In a returned tree, the node of every path that is not a directory
    is the leaf of an entry, and its description is accounted for.  For a
    name with an image suffix it is the literal of a failed encoding when the
    file cannot be read or holds no byte, and otherwise the answer to a
    request, made during this scan, that carries the base64 text of the
    file's bytes.  For any other name it is the answer to the text-mode
    request "Describe this: " followed by the entry's name. *)
Theorem leaves_are_described_by_mode : forall env fuel p m w node w',
  scan_folder env fuel p m w = (Ret node, w') ->
  forall q n, located env p node q n -> isdir env q = false ->
  exists parent item d,
    q = PosixPath.join parent item /\
    n = PDict [("name", PStr item);
               ("path", PStr (abspath env q));
               ("type", PStr "file");
               ("description", d)] /\
    leaf_described env m w w' item q d.
Proof.
  intros env fuel p m w node w' H q n Hloc Hq.
  exact (leaves_described env fuel p m w node w' H q n Hloc Hq).
Qed.

(** X9, a run: the image and the unreadable photo of the sample tree. *)
Lemma leaves_are_described_by_mode_witness :
  (exists parent item d,
     "root/cat.png" = PosixPath.join parent item /\
     file_node Demo.env "cat.png" "root/cat.png" (PStr "a description") =
       PDict [("name", PStr item);
              ("path", PStr (abspath Demo.env "root/cat.png"));
              ("type", PStr "file");
              ("description", d)] /\
     leaf_described Demo.env Demo.model initial_world
       (snd (scan_folder Demo.env 3 "root" Demo.model initial_world))
       item "root/cat.png" d).
Proof.
  assert (E : scan_folder Demo.env 3 "root" Demo.model initial_world =
              (Ret Demo.scanned,
               snd (scan_folder Demo.env 3 "root" Demo.model initial_world)))
    by (vm_compute; reflexivity).
  refine (leaves_are_described_by_mode Demo.env 3 "root" Demo.model initial_world
            Demo.scanned _ E "root/cat.png" _ _ eq_refl).
  apply located_below
    with (items := ["notes.txt"; "cat.png"; "sub"])
         (cs := children_of Demo.scanned) (item := "cat.png")
         (child := file_node Demo.env "cat.png" "root/cat.png" (PStr "a description")).
  - reflexivity.
  - reflexivity.
  - right. left. reflexivity.
  - apply located_here.
Defined.

Lemma node_count_folder : forall env p d cs,
  node_count (folder_with env p d cs) = S (nodes_in cs).
Proof.
  intros env p d cs. unfold nodes_in. simpl. f_equal.
  induction cs as [|c cs IH]; simpl; [reflexivity | now rewrite IH].
Qed.

Lemma node_count_file : forall env item q d, node_count (file_node env item q d) = 1%nat.
Proof. reflexivity. Qed.

Lemma items_results_requests : forall env recur p m items w cs w',
  (forall q w1 c w2, recur q m w1 = (Ret c, w2) ->
     (length (requests w2) <= length (requests w1) + node_count c)%nat) ->
  items_results env recur p m items w cs w' ->
  (length (requests w') <= length (requests w) + nodes_in cs)%nat.
Proof.
  intros env recur p m items w cs w' Hrec Hrs.
  induction Hrs as [w | item items w child w1 cs w2 Hi _ IH].
  - unfold nodes_in. simpl. lia.
  - unfold nodes_in, list_sum in *. cbn [map fold_right].
    assert (Hone : (length (requests w1) <= length (requests w) + node_count child)%nat).
    { unfold item_result in Hi. destruct (isdir env (PosixPath.join p item)).
      - eapply Hrec, Hi.
      - destruct Hi as (d & Hd & ->). rewrite node_count_file.
        apply describe_with_curl_ret_inv in Hd.
        destruct (described_as_frame env m
                    (if has_image_suffix item then Some (PosixPath.join p item) else None)
                    (Some item) w) as (_ & _ & rs & Hr & Hlen).
        rewrite <- Hd in Hr. cbn [snd] in Hr. rewrite Hr, length_app. lia. }
    lia.
Qed.

(** X10. A scan that returns has made at least one request and at most one
    per node of the tree it returns: the describer is called once per entry
    and never retried. *)
Theorem requests_bounded_by_nodes : forall env fuel p m w node w',
  scan_folder env fuel p m w = (Ret node, w') ->
  (length (requests w) + 1 <= length (requests w'))%nat /\
  (length (requests w') <= length (requests w) + node_count node)%nat.
Proof.
  intros env. induction fuel as [|fuel IH]; intros p m w node w' H.
  - discriminate.
  - apply scan_folder_ret in H. destruct H as (items & cs & Hl & Hrs & ->).
    rewrite node_count_folder.
    assert (Hrec : forall q0, steady_m (scan_folder env fuel q0 m))
      by (intros q0; apply steady_m_scan_folder).
    pose proof (steady_requests_length _ _ (items_results_steady _ _ _ _ _ _ _ _ Hrec Hrs))
      as Hlow.
    pose proof (items_results_requests env _ p m items _ cs w'
                  (fun q w1 c w2 Hq => proj2 (IH q m w1 c w2 Hq)) Hrs) as Hup.
    cbn [described_as if_truthy text_mode snd after_request requests] in Hlow, Hup.
    rewrite length_app in Hlow, Hup. simpl in Hlow, Hup. lia.
Qed.

(** X10, a run: the sample tree has five nodes and takes four requests, the
    unreadable photo taking none. *)
Lemma requests_bounded_by_nodes_witness :
  node_count Demo.scanned = 5%nat /\
  length (requests (snd (scan_folder Demo.env 3 "root" Demo.model initial_world))) = 4%nat /\
  (length (requests initial_world) + 1 <=
   length (requests (snd (scan_folder Demo.env 3 "root" Demo.model initial_world))))%nat /\
  (length (requests (snd (scan_folder Demo.env 3 "root" Demo.model initial_world))) <=
   length (requests initial_world) + node_count Demo.scanned)%nat.
Proof.
  split; [reflexivity|]. split; [reflexivity|].
  assert (E : scan_folder Demo.env 3 "root" Demo.model initial_world =
              (Ret Demo.scanned,
               snd (scan_folder Demo.env 3 "root" Demo.model initial_world)))
    by (vm_compute; reflexivity).
  exact (requests_bounded_by_nodes Demo.env 3 "root" Demo.model initial_world
           Demo.scanned _ E).
Defined.

(** X11. A folder is described before anything inside it: its own request
    is the first of its scan, and the request of every directory below it
    comes later in the log. *)
Theorem folder_is_described_first : forall env fuel p m w node w',
  scan_folder env fuel p m w = (Ret node, w') ->
  nth_error (requests w') (length (requests w))
    = Some (text_request m (Some (PosixPath.basename p))) /\
  forall items cs item child q n,
    listdir env p = Ok items ->
    field "children" node = Some (PList cs) ->
    In (item, child) (combine items cs) ->
    located env (PosixPath.join p item) child q n ->
    isdir env q = true ->
    exists k,
      (length (requests w) < k)%nat /\
      nth_error (requests w') k = Some (text_request m (Some (PosixPath.basename q))) /\
      field "description" n =
        Some (answer_of (post env k (text_request m (Some (PosixPath.basename q))))).
Proof.
  intros env [|fuel] p m w node w' H; [discriminate|].
  apply scan_folder_ret in H. destruct H as (items & cs & Hl & Hrs & ->).
  assert (Hrec : forall q0, steady_m (scan_folder env fuel q0 m))
    by (intros q0; apply steady_m_scan_folder).
  pose proof (items_results_steady _ _ _ _ _ _ _ _ Hrec Hrs) as Hst.
  split.
  - eapply steady_nth_error; [exact Hst|]. apply nth_error_after_request.
  - intros items0 cs0 item child q n Hl0 Hc0 Hin Hsub Hq.
    rewrite Hl in Hl0. inversion Hl0; subst items0.
    cbn in Hc0. inversion Hc0; subst cs0.
    destruct (items_results_in _ _ _ _ _ _ _ _ _ _ Hrec Hrs Hin)
      as (wi & wi' & Hs1 & Hi & Hs2).
    unfold item_result in Hi.
    destruct (isdir env (PosixPath.join p item)) eqn:E.
    + destruct (folders_described env fuel _ m wi child wi' Hi q n Hsub Hq)
        as (_ & k & Hk & Hnth & Hd).
      exists k. split; [|split; [eapply steady_nth_error; eassumption | exact Hd]].
      apply steady_requests_length in Hs1. simpl in Hs1.
      rewrite length_app in Hs1. simpl in Hs1. lia.
    + exfalso. destruct Hi as (d & _ & ->).
      inversion Hsub as [| p1 node1 items1 cs1 item1 child1 q1 n1 Hl1]; subst.
      * congruence.
      * apply listdir_ok_isdir in Hl1. congruence.
Qed.

(** X11, a run: in the sample tree the root is asked about first, its
    subfolder later. *)
Lemma folder_is_described_first_witness :
  nth_error (requests (snd (scan_folder Demo.env 3 "root" Demo.model initial_world))) 0
    = Some (text_request Demo.model (Some "root")) /\
  exists k,
    (0 < k)%nat /\
    nth_error (requests (snd (scan_folder Demo.env 3 "root" Demo.model initial_world))) k
      = Some (text_request Demo.model (Some "sub")).
Proof.
  assert (E : scan_folder Demo.env 3 "root" Demo.model initial_world =
              (Ret Demo.scanned,
               snd (scan_folder Demo.env 3 "root" Demo.model initial_world)))
    by (vm_compute; reflexivity).
  destruct (folder_is_described_first Demo.env 3 "root" Demo.model initial_world
              Demo.scanned _ E) as [Hfirst Hrest].
  split; [exact Hfirst|].
  destruct (Hrest ["notes.txt"; "cat.png"; "sub"] (children_of Demo.scanned) "sub"
              (folder_with Demo.env "root/sub" (PStr "a description")
                 [file_node Demo.env "photo.JPG" "root/sub/photo.JPG"
                    (PStr "Error encoding the image for description.")])
              "root/sub" _ eq_refl eq_refl
              (or_intror (or_intror (or_introl eq_refl)))
              (located_here Demo.env _ _) eq_refl)
    as (k & Hk & Hnth & _).
  exists k. split; [exact Hk | exact Hnth].
Defined.

(* ------------------------------------------------------------------------- *)
(** * More on the run as a whole *)

Lemma main_no_input : forall env json_dumps fuel w e,
  input_line env = Error e ->
  main env json_dumps fuel w = (Raise e, after_print w prompt).
Proof.
  intros env json_dumps fuel w e Hline. unfold main, input, bind, print.
  rewrite Hline. reflexivity.
Qed.


Lemma basename_trailing_sep : forall p, PosixPath.basename (p ++ "/") = EmptyString.
Proof.
  intros p. apply (PosixPathFacts.basename_after_sep p EmptyString). reflexivity.
Qed.

(** X13. A folder path that ends in the separator, as shell completion
    leaves it, has the empty base name: the node returned for it is named
    "" and the request made for it reads "Describe this: " with nothing
    after it. *)
Theorem trailing_separator_empties_the_name : forall env fuel p m w node w',
  scan_folder env fuel (p ++ "/") m w = (Ret node, w') ->
  field "name" node = Some (PStr "") /\
  nth_error (requests w') (length (requests w)) =
    Some (mkRequest "http://localhost:11434/api/chat"
            [("Content-Type", "application/json")]
            (PDict [("model", PStr m);
                    ("messages",
                     PList [PDict [("role", PStr "user");
                                   ("content", PStr "Describe this: ")]])])).
Proof.
  intros env fuel p m w node w' H.
  destruct (folders_described env fuel (p ++ "/") m w node w' H (p ++ "/") node
              (located_here env _ _))
    as (Hname & _).
  { apply scan_returns_scannable in H. destruct H as [q items Hl _].
    eapply listdir_ok_isdir, Hl. }
  rewrite basename_trailing_sep in Hname. split; [exact Hname|].
  destruct fuel as [|fuel]; [discriminate|].
  apply scan_folder_ret in H. destruct H as (items & cs & _ & Hrs & _).
  rewrite basename_trailing_sep in Hrs.
  eapply steady_nth_error.
  - eapply items_results_steady; [|exact Hrs].
    intros q. apply steady_m_scan_folder.
  - apply nth_error_after_request.
Qed.

(** X13, a run: the user enters "root/". *)
Lemma trailing_separator_empties_the_name_witness :
  field "name" (folder_with Demo.env_slash "root/" (PStr "a description")
                  [file_node Demo.env_slash "a.txt" "root/a.txt" (PStr "a description")])
    = Some (PStr "") /\
  nth_error (requests (snd (scan_folder Demo.env_slash 2 "root/" Demo.model initial_world))) 0 =
    Some (mkRequest "http://localhost:11434/api/chat"
            [("Content-Type", "application/json")]
            (PDict [("model", PStr Demo.model);
                    ("messages",
                     PList [PDict [("role", PStr "user");
                                   ("content", PStr "Describe this: ")]])])).
Proof.
  assert (E : scan_folder Demo.env_slash 2 ("root" ++ "/") Demo.model initial_world =
              (Ret (folder_with Demo.env_slash "root/" (PStr "a description")
                      [file_node Demo.env_slash "a.txt" "root/a.txt"
                         (PStr "a description")]),
               snd (scan_folder Demo.env_slash 2 "root/" Demo.model initial_world)))
    by (vm_compute; reflexivity).
  exact (trailing_separator_empties_the_name Demo.env_slash 2 "root" Demo.model
           initial_world _ _ E).
Defined.

(** X14. How [describe_with_curl] reads its arguments.  An empty image path
    counts as no image: the call is the text-mode call.  With a non-empty
    image path the text plays no part.  And with neither image nor text, the
    defaults of the signature, the request reads "Describe this: None". *)
Theorem image_path_decides_the_mode : forall env model w,
  (forall txt,
     describe_with_curl env model (Some "") txt w =
     describe_with_curl env model None txt w) /\
  (forall c rest txt1 txt2,
     describe_with_curl env model (Some (String c rest)) txt1 w =
     describe_with_curl env model (Some (String c rest)) txt2 w) /\
  requests (snd (describe_with_curl env model None None w)) =
    (requests w ++
     [mkRequest "http://localhost:11434/api/chat"
        [("Content-Type", "application/json")]
        (PDict [("model", PStr model);
                ("messages",
                 PList [PDict [("role", PStr "user");
                               ("content", PStr "Describe this: None")]])])])%list.
Proof.
  intros env model w. split; [|split].
  - intros txt. now rewrite !describe_with_curl_eq.
  - intros c rest txt1 txt2. now rewrite !describe_with_curl_eq.
  - now rewrite describe_with_curl_eq.
Qed.

(** X15. What [main] prints.  The prompt always comes first.  Nothing
    follows it when reading the line raises; the one line "The specified
    folder does not exist." follows when the path names nothing; otherwise
    "Scanning folder and generating descriptions..." follows, then only the
    lines of failed encodings, and last, exactly in the runs that end
    normally, the line "Folder structure saved to " with the path of the
    output file. *)
Theorem main_console : forall env json_dumps fuel w,
  exists tail,
    stdout (snd (main env json_dumps fuel w)) = (stdout w ++ prompt :: tail)%list /\
    ((exists e, input_line env = Error e /\ tail = []) \/
     (exists line,
        input_line env = Ok line /\ path_exists env (PyStr.strip line) = false /\
        tail = ["The specified folder does not exist."]) \/
     (exists line errors,
        input_line env = Ok line /\ path_exists env (PyStr.strip line) = true /\
        Forall encoding_error_line errors /\
        ((fst (main env json_dumps fuel w) <> Ret tt /\
          tail = "Scanning folder and generating descriptions..." :: errors) \/
         (fst (main env json_dumps fuel w) = Ret tt /\
          tail =
            ("Scanning folder and generating descriptions..." :: errors ++
             [("Folder structure saved to " ++
               PosixPath.join (PyStr.strip line) "folder_structure.json")%string])%list)))).
Proof.
  intros env json_dumps fuel w.
  destruct (input_line env) as [line | e] eqn:Hline.
  - destruct (path_exists env (PyStr.strip line)) eqn:Hex.
    + rewrite (main_existing env json_dumps fuel w line Hline Hex).
      destruct (emits_scan_folder env fuel (PyStr.strip line) "llama3.2-vision"
                  (scan_start w)) as (_ & errors & _ & _ & Hl & HQ).
      destruct (scan_folder env fuel (PyStr.strip line) "llama3.2-vision" (scan_start w))
        as [[tree | e |] w2] eqn:E; cbn [snd] in Hl.
      * destruct (open_w env (output_file (PyStr.strip line))) as [u | e].
        -- eexists. split.
           ++ simpl. rewrite Hl. simpl. rewrite <- !app_assoc. simpl. reflexivity.
           ++ right. right. exists line, errors. repeat split; auto.
        -- eexists. split.
           ++ simpl. rewrite Hl. simpl. rewrite <- !app_assoc. simpl. reflexivity.
           ++ right. right. exists line, errors. repeat split; auto.
              left. split; [discriminate | reflexivity].
      * eexists. split.
        -- simpl. rewrite Hl. simpl. rewrite <- !app_assoc. simpl. reflexivity.
        -- right. right. exists line, errors. repeat split; auto.
           left. split; [discriminate | reflexivity].
      * eexists. split.
        -- simpl. rewrite Hl. simpl. rewrite <- !app_assoc. simpl. reflexivity.
        -- right. right. exists line, errors. repeat split; auto.
           left. split; [discriminate | reflexivity].
    + rewrite (main_missing env json_dumps fuel w line Hline Hex).
      eexists. split.
      * simpl. rewrite <- app_assoc. simpl. reflexivity.
      * right. left. exists line. auto.
  - rewrite (main_no_input env json_dumps fuel w e Hline).
    eexists. split; [reflexivity|]. left. eauto.
Qed.


